(** * Inv-Agent: the inventory tool of [main.py]

    A shallow embedding of [src/Inv-Agent/main.py]: the [manageInventory]
    tool, [init_db], [fetch_inventory] and what [main] prints once the
    agent has answered, over a small model of the part of [sqlite3] the
    program uses. The agent itself (the model behind [Runner.run]) is
    outside the program: its requests and its final output are inputs.

    Python values are modelled as follows.
    - [str] is [string] (a sequence of bytes); [int] is [Z]; an attribute
      that may be [None] is an [option].
    - The database file [inventory.db] is a [Database]: either it has no
      [inventory] table yet, or it holds the table's rows in rowid order
      together with the AUTOINCREMENT counter kept in [sqlite_sequence].
    - A [sqlite3] call either returns or raises; an exception is carried as
      its message, which is all the program ever looks at ([str(e)]).
    - Errors the engine raises for reasons the tables below do not show
      (I/O errors, a locked file, a full disk, an integer outside the
      64-bit range, no rowid left) are supplied by a [Faults] plan: for
      each of [connect], [execute] and [commit] it says whether the call
      raises, and with which message.
    - Two of these errors follow from the request and the table alone: an
      integer parameter that does not fit in 64 bits, and an insert when
      no rowid is left. [engine_error] computes them, [engine_faults] is
      the plan of a store that raises these and nothing else, and
      [run_tool] is a tool call on such a store.
    - [print] appends to [stdout]. *)

From Stdlib Require Import ZArith String Ascii List Bool Lia Sorted DecimalString.
Import ListNotations.

Local Open Scope Z_scope.
Local Open Scope string_scope.

(* ================================================================= *)
(** ** Python string primitives used by the program *)

Module PyStr.

(** [c.lower()] on one character: ASCII upper-case letters are shifted,
    every other byte is kept. The program only compares the result with
    "add", "update" and "delete"; no character outside ASCII lower-cases to
    one of their letters, so the comparisons come out as in Python. *)
Definition lower_char (c : ascii) : ascii :=
  let n := nat_of_ascii c in
  if ((65 <=? n)%nat && (n <=? 90)%nat)%bool then ascii_of_nat (n + 32) else c.

(** [s.lower()] *)
Fixpoint lower (s : string) : string :=
  match s with
  | EmptyString => EmptyString
  | String c s' => String (lower_char c) (lower s')
  end.

(** [hay.startswith(needle)] *)
Fixpoint startswith (needle hay : string) : bool :=
  match needle, hay with
  | EmptyString, _ => true
  | String _ _, EmptyString => false
  | String a n', String b h' => (Ascii.eqb a b && startswith n' h')%bool
  end.

(** [needle in hay] *)
Fixpoint contains (needle hay : string) : bool :=
  (startswith needle hay ||
   match hay with
   | EmptyString => false
   | String _ h' => contains needle h'
   end)%bool.

(** [str(z)] for an [int] *)
Definition str (z : Z) : string := NilZero.string_of_int (Z.to_int z).

(** [f"{x}"] for an attribute of type [Optional[int]] *)
Definition fmt_int (x : option Z) : string :=
  match x with Some z => str z | None => "None" end.

(** [f"{x}"] for an attribute of type [Optional[str]] *)
Definition fmt_str (x : option string) : string :=
  match x with Some s => s | None => "None" end.

(** [not x] for an attribute of type [Optional[str]]: [None] and the
    empty string are falsy. *)
Definition py_not (x : option string) : bool :=
  match x with
  | None => true
  | Some s => (s =? EmptyString)
  end.

(** [x is None] *)
Definition is_None {A : Type} (x : option A) : bool :=
  match x with None => true | Some _ => false end.

End PyStr.
Import PyStr.

(* ================================================================= *)
(** ** The store: the [sqlite3] calls the program makes *)

Module Sqlite.

(** One row of
    [inventory (id INTEGER PRIMARY KEY AUTOINCREMENT,
                name TEXT NOT NULL, quantity INTEGER NOT NULL)]. *)
Record Row := mkRow { row_id : Z; row_name : string; row_quantity : Z }.

(** The [inventory] table: its rows in rowid order (the order of the
    table's b-tree, which a full scan follows) and the largest rowid ever
    handed out, as [sqlite_sequence] records it. *)
Record Inventory := mkInventory { rows : list Row; sqlite_sequence : Z }.

(** A database file: [None] while it has no [inventory] table. *)
Definition Database := option Inventory.

Definition empty_inventory : Inventory :=
  {| rows := []; sqlite_sequence := 0 |}.

(** The SQL statements of [main.py], with their bound parameters
    ([None] is bound as NULL). *)
Inductive Stmt :=
| CreateTableIfNotExists
| Insert (name : option string) (quantity : option Z)
| Update (name : option string) (quantity : option Z) (id : option Z)
| Delete (id : option Z)
| SelectAll.

(** What the program reads back from a cursor. *)
Record Cursor := mkCursor {
  rowcount : Z;
  lastrowid : Z;
  fetchall : list Row
}.

Definition max_rowid (rs : list Row) : Z :=
  fold_right (fun r m => Z.max (row_id r) m) 0 rs.

(** AUTOINCREMENT: one more than the largest rowid the table holds or
    has ever held. *)
Definition next_rowid (inv : Inventory) : Z :=
  Z.max (sqlite_sequence inv) (max_rowid (rows inv)) + 1.

Definition has_id (i : Z) (r : Row) : bool := (row_id r =? i)%Z.

Definition count_id (i : Z) (rs : list Row) : Z :=
  Z.of_nat (List.length (filter (has_id i) rs)).

Definition set_row (n : string) (q : Z) (i : Z) (r : Row) : Row :=
  if has_id i r then mkRow (row_id r) n q else r.

Definition no_such_table : string := "no such table: inventory".
Definition not_null_name : string := "NOT NULL constraint failed: inventory.name".
Definition not_null_quantity : string :=
  "NOT NULL constraint failed: inventory.quantity".

(** The effect of one statement on the contents it runs against: the
    message of the error it raises, or the new contents and the cursor.
    A statement that raises changes nothing. *)
Definition run_stmt (s : Stmt) (db : Database) : string + (Database * Cursor) :=
  match s, db with
  | CreateTableIfNotExists, None =>
      inr (Some empty_inventory, mkCursor (-1) 0 [])
  | CreateTableIfNotExists, Some inv =>
      inr (Some inv, mkCursor (-1) 0 [])
  | _, None => inl no_such_table
  | Insert None _, Some _ => inl not_null_name
  | Insert (Some _) None, Some _ => inl not_null_quantity
  | Insert (Some n) (Some q), Some inv =>
      let i := next_rowid inv in
      inr (Some {| rows := rows inv ++ [mkRow i n q]; sqlite_sequence := i |},
           mkCursor 1 i [])
  | Update _ _ None, Some inv => inr (Some inv, mkCursor 0 0 [])
  | Update n q (Some i), Some inv =>
      if (count_id i (rows inv) =? 0)%Z then inr (Some inv, mkCursor 0 0 [])
      else match n, q with
           | None, _ => inl not_null_name
           | Some _, None => inl not_null_quantity
           | Some n', Some q' =>
               inr (Some {| rows := map (set_row n' q' i) (rows inv);
                            sqlite_sequence := sqlite_sequence inv |},
                    mkCursor (count_id i (rows inv)) 0 [])
           end
  | Delete None, Some inv => inr (Some inv, mkCursor 0 0 [])
  | Delete (Some i), Some inv =>
      inr (Some {| rows := filter (fun r => negb (has_id i r)) (rows inv);
                   sqlite_sequence := sqlite_sequence inv |},
           mkCursor (count_id i (rows inv)) 0 [])
  | SelectAll, Some inv => inr (Some inv, mkCursor (-1) 0 (rows inv))
  end.

(** INSERT, UPDATE and DELETE open a transaction implicitly; the other
    statements run in autocommit mode when none is open. *)
Definition is_dml (s : Stmt) : bool :=
  match s with
  | Insert _ _ | Update _ _ _ | Delete _ => true
  | CreateTableIfNotExists | SelectAll => false
  end.

(** Exceptions raised by the environment, per call. *)
Record Faults := mkFaults {
  connect_fault : option string;
  execute_fault : option string;
  commit_fault : option string
}.

Definition no_faults : Faults := mkFaults None None None.

(** What happened on the connection, oldest first. *)
Inductive Event :=
| EvConnect
| EvExecute (s : Stmt)
| EvCommit
| EvClose
| EvRaise (msg : string).

(** The file and the one connection the running function holds. *)
Record World := mkWorld {
  disk : Database;          (* committed contents of inventory.db *)
  txn : option Database;    (* contents inside the open transaction *)
  connected : bool;         (* the connection is open *)
  journal : list Event;
  stdout : list string      (* one entry per [print], oldest first *)
}.

Definition at_rest (db : Database) : World :=
  {| disk := db; txn := None; connected := false; journal := []; stdout := [] |}.

Definition log (es : list Event) (w : World) : World :=
  {| disk := disk w; txn := txn w; connected := connected w;
     journal := journal w ++ es; stdout := stdout w |}.

(** A call returns a value or raises. *)
Inductive Result (A : Type) :=
| Ok (a : A)
| Raise (msg : string).
Arguments Ok {A} a.
Arguments Raise {A} msg.

Definition M (A : Type) : Type := World -> Result A * World.

Definition ret {A} (a : A) : M A := fun w => (Ok a, w).

Definition bind {A B} (m : M A) (k : A -> M B) : M B :=
  fun w => match m w with
           | (Ok a, w') => k a w'
           | (Raise e, w') => (Raise e, w')
           end.

(** [try: body  except Exception as e: handler(str(e))] *)
Definition try_except {A} (body : M A) (handler : string -> M A) : M A :=
  fun w => match body w with
           | (Ok a, w') => (Ok a, w')
           | (Raise e, w') => handler e w'
           end.

(** [try: body  finally: final] *)
Definition try_finally {A} (body : M A) (final : M unit) : M A :=
  fun w => let (r, w') := body w in
           match final w' with
           | (Ok _, w'') => (r, w'')
           | (Raise e, w'') => (Raise e, w'')
           end.

(** [sqlite3.connect(DB_PATH)] *)
Definition connect (f : Faults) : M unit :=
  fun w => match connect_fault f with
           | Some e => (Raise e, log [EvRaise e] w)
           | None =>
               (Ok tt, {| disk := disk w; txn := None; connected := true;
                          journal := journal w ++ [EvConnect]; stdout := stdout w |})
           end.

(** The contents a statement on the connection sees. *)
Definition view (w : World) : Database :=
  match txn w with Some db => db | None => disk w end.

(** [c.execute(sql, params)] *)
Definition execute (f : Faults) (s : Stmt) : M Cursor :=
  fun w =>
    match execute_fault f with
    | Some e => (Raise e, log [EvExecute s; EvRaise e] w)
    | None =>
        match run_stmt s (view w) with
        | inl e => (Raise e, log [EvExecute s; EvRaise e] w)
        | inr (db', cur) =>
            (Ok cur,
             if (is_dml s || negb (is_None (txn w)))%bool
             then {| disk := disk w; txn := Some db'; connected := connected w;
                     journal := journal w ++ [EvExecute s]; stdout := stdout w |}
             else {| disk := db'; txn := None; connected := connected w;
                     journal := journal w ++ [EvExecute s]; stdout := stdout w |})
        end
    end.

(** [conn.commit()] *)
Definition commit (f : Faults) : M unit :=
  fun w =>
    match commit_fault f with
    | Some e => (Raise e, log [EvCommit; EvRaise e] w)
    | None =>
        (Ok tt, {| disk := view w; txn := None; connected := connected w;
                   journal := journal w ++ [EvCommit]; stdout := stdout w |})
    end.

(** [conn.close()]: a transaction that was not committed is dropped. *)
Definition close : M unit :=
  fun w => (Ok tt, {| disk := disk w; txn := None; connected := false;
                      journal := journal w ++ [EvClose]; stdout := stdout w |}).

(** [print(line)] *)
Definition print (line : string) : M unit :=
  fun w => (Ok tt, {| disk := disk w; txn := txn w; connected := connected w;
                      journal := journal w; stdout := stdout w ++ [line] |}).

End Sqlite.
Import Sqlite.

Declare Scope py_scope.
Notation "x <- m ;; k" := (bind m (fun x => k))
  (at level 61, m at next level, right associativity) : py_scope.
Notation "m ;;; k" := (bind m (fun _ => k))
  (at level 61, right associativity) : py_scope.
Local Open Scope py_scope.

(* ================================================================= *)
(** ** The program *)

(** [class InventoryItemInput] *)
Record InventoryItemInput := mkItem {
  operation : string;
  id : option Z;
  name : option string;
  quantity : option Z
}.

(** [class HelpfulAgentOutput] *)
Record HelpfulAgentOutput := mkOutput {
  response_type : string;
  inventory_data : option string
}.

(** [init_db()] *)
Definition init_db (f : Faults) : M unit :=
  connect f ;;;
  _ <- execute f CreateTableIfNotExists ;;
  commit f ;;;
  close.

(** [fetch_inventory()] *)
Definition fetch_inventory (f : Faults) : M (list Row) :=
  connect f ;;;
  c <- execute f SelectAll ;;
  let rows := fetchall c in
  close ;;;
  ret rows.

(** The result strings of [manageInventory]. *)
Definition add_required : string :=
  "Error: Name and quantity are required for adding an item.".
Definition update_required : string :=
  "Error: ID, name, and quantity are required for updating an item.".
Definition delete_required : string :=
  "Error: ID is required for deleting an item.".
Definition invalid_operation : string :=
  "Error: Invalid operation. Use 'add', 'update', or 'delete'.".
Definition added (n : option string) (new_id : Z) (q : option Z) : string :=
  "Added " ++ fmt_str n ++ " with ID " ++ str new_id
    ++ " and quantity " ++ fmt_int q ++ ".".
Definition updated (i : option Z) (n : option string) (q : option Z) : string :=
  "Updated item ID " ++ fmt_int i ++ " to " ++ fmt_str n
    ++ " with quantity " ++ fmt_int q ++ ".".
Definition deleted (i : option Z) : string :=
  "Deleted item ID " ++ fmt_int i ++ ".".
Definition not_found (i : option Z) : string :=
  "Error: Item with ID " ++ fmt_int i ++ " not found.".
Definition error (e : string) : string := "Error: " ++ e.

(** The [try] block of [manageInventory] (lines 89-118). *)
Definition manageInventory_try (f : Faults) (item : InventoryItemInput)
    (operation : string) : M string :=
  if operation =? "add" then
    if (py_not (name item) || is_None (quantity item))%bool then
      ret add_required
    else
      c <- execute f (Insert (name item) (quantity item)) ;;
      commit f ;;;
      let new_id := lastrowid c in
      ret (added (name item) new_id (quantity item))
  else if operation =? "update" then
    if (is_None (id item) || py_not (name item) || is_None (quantity item))%bool then
      ret update_required
    else
      c <- execute f (Update (name item) (quantity item) (id item)) ;;
      if (rowcount c =? 0)%Z then
        ret (not_found (id item))
      else
        commit f ;;;
        ret (updated (id item) (name item) (quantity item))
  else if operation =? "delete" then
    if is_None (id item) then
      ret delete_required
    else
      c <- execute f (Delete (id item)) ;;
      if (rowcount c =? 0)%Z then
        ret (not_found (id item))
      else
        commit f ;;;
        ret (deleted (id item))
  else
    ret invalid_operation.

(** The line [manageInventory] prints when it is entered (line 83). *)
Definition tool_log : string :=
  String "010" "LOG: manageInventory tool is being called!".

(** [manageInventory(item)]: the connection is opened before the [try]
    (line 85); the [except] clause turns an exception of the block into a
    result string; the [finally] clause closes the connection. *)
Definition manageInventory (f : Faults) (item : InventoryItemInput) : M string :=
  print tool_log ;;;
  let operation := lower (operation item) in
  connect f ;;;
  try_finally
    (try_except (manageInventory_try f item operation)
                (fun e => ret (error e)))
    close.

(** The test of line 158: [result.final_output and
    "is inventory" in result.final_output]. *)
Definition shouldListInventory (final_output : option string) : bool :=
  match final_output with
  | None => false
  | Some s => (negb (s =? EmptyString) && contains "is inventory" s)%bool
  end.

(** One line of the listing (line 162). *)
Definition row_line (r : Row) : string :=
  "ID: " ++ str (row_id r) ++ ", Name: " ++ row_name r
    ++ ", Quantity: " ++ str (row_quantity r).

(** [for row in rows: print(...)] (lines 161-162) *)
Fixpoint print_rows (rows : list Row) : M unit :=
  match rows with
  | [] => ret tt
  | row :: rest => print (row_line row) ;;; print_rows rest
  end.

Definition listing_heading : string := String "010" "Current Inventory:".

(** [main], from the point where [Runner.run] has returned: the agent is
    outside the program, so its [final_output] is a parameter
    (lines 156-162). *)
Definition main (f : Faults) (final_output : option string) : M unit :=
  print (fmt_str final_output) ;;;
  if shouldListInventory final_output then
    print listing_heading ;;;
    rows <- fetch_inventory f ;;
    print_rows rows
  else
    ret tt.

(** The final summary in the format the agent is instructed to use
    (lines 138-140):
    ["response_type": "<...>", "inventory_data": "<...>"]. *)
Definition dquote : string := String "034" EmptyString.
Definition summary_text (o : HelpfulAgentOutput) : string :=
  dquote ++ "response_type" ++ dquote ++ ": " ++ dquote ++ response_type o ++ dquote
    ++ ", " ++ dquote ++ "inventory_data" ++ dquote ++ ": "
    ++ dquote ++ fmt_str (inventory_data o) ++ dquote.

(* ================================================================= *)
(** ** Vocabulary for stating the properties *)

(** One tool call against the file [db], from a state with no open
    connection. *)
Definition call (f : Faults) (item : InventoryItemInput) (db : Database)
    : Result string * World :=
  manageInventory f item (at_rest db).

(** The state a call leaves behind when it ends: the file, no
    transaction, no open connection, what happened on the connection, and
    the one line the tool printed. *)
Definition after_call (db : Database) (events : list Event) : World :=
  mkWorld db None false events [tool_log].

(** Tool calls one after the other, each on the file the previous one left. *)
Fixpoint calls (f : Faults) (items : list InventoryItemInput) (db : Database)
    : list (Result string) * Database :=
  match items with
  | [] => ([], db)
  | item :: rest =>
      let (r, w) := call f item db in
      let (rs, db') := calls f rest (disk w) in
      (r :: rs, db')
  end.

(** Reading one record back: the row with that id in [fetch_inventory()]. *)
Definition read (f : Faults) (i : Z) : M (option Row) :=
  rows <- fetch_inventory f ;;
  ret (find (has_id i) rows).

Definition rows_of (db : Database) : list Row :=
  match db with Some inv => rows inv | None => [] end.

(** The three operations of the tool, by the string the code compares the
    normalized [operation] with. *)
Inductive Kind := KAdd | KUpdate | KDelete.

Definition keyword (k : Kind) : string :=
  match k with KAdd => "add" | KUpdate => "update" | KDelete => "delete" end.

Inductive Field := FId | FName | FQuantity.

(** The fields each operation checks before it touches the store. *)
Definition required (k : Kind) : list Field :=
  match k with
  | KAdd => [FName; FQuantity]
  | KUpdate => [FId; FName; FQuantity]
  | KDelete => [FId]
  end.

(** A field counts as omitted when the code's own test on it fails. *)
Definition omitted (item : InventoryItemInput) (fld : Field) : bool :=
  match fld with
  | FId => is_None (id item)
  | FName => py_not (name item)
  | FQuantity => is_None (quantity item)
  end.

Definition omitted_fields (k : Kind) (item : InventoryItemInput) : list Field :=
  filter (omitted item) (required k).

Definition well_formed (k : Kind) (item : InventoryItemInput) : Prop :=
  lower (operation item) = keyword k /\ omitted_fields k item = [].

(** The word a message uses for a field, in lower case. *)
Definition field_word (fld : Field) : string :=
  match fld with FId => "id" | FName => "name" | FQuantity => "quantity" end.

(** The fields a result string names. *)
Definition named_fields (msg : string) : list Field :=
  filter (fun fld => contains (field_word fld) (lower msg)) [FId; FName; FQuantity].

(** The message each operation returns when a required field is omitted. *)
Definition missing_field (k : Kind) : string :=
  match k with
  | KAdd => add_required
  | KUpdate => update_required
  | KDelete => delete_required
  end.

(** The store saw no statement and no commit. *)
Definition untouched (w : World) : Prop :=
  forall e, In e (journal w) -> e = EvConnect \/ e = EvClose \/ exists m, e = EvRaise m.

(** The store raised [msg] during the call. *)
Definition store_raised (msg : string) (w : World) : Prop :=
  In (EvRaise msg) (journal w).

(** The table as the engine keeps it: rows in strictly increasing rowid
    order (rowid is the primary key). *)
Definition by_id (a b : Row) : Prop := row_id a < row_id b.

Definition table_ok (db : Database) : Prop := StronglySorted by_id (rows_of db).

(** The states the file goes through while the program is used: any number
    of [init_db] runs and tool calls, whatever the environment does. *)
Inductive lifetime (db : Database) : Database -> Prop :=
| life_start : lifetime db db
| life_init_db f db1 :
    lifetime db db1 -> lifetime db (disk (snd (init_db f (at_rest db1))))
| life_call f item db1 :
    lifetime db db1 -> lifetime db (disk (snd (call f item db1))).

(** The statement a well-formed request of each kind sends to the store. *)
Definition statement (k : Kind) (item : InventoryItemInput) : Stmt :=
  match k with
  | KAdd => Insert (name item) (quantity item)
  | KUpdate => Update (name item) (quantity item) (id item)
  | KDelete => Delete (id item)
  end.

(** The row a request is aimed at: the one whose id is the request's. *)
Definition targets (item : InventoryItemInput) (r : Row) : bool :=
  match id item with
  | Some i => has_id i r
  | None => false
  end.

(** The ways one tool call can leave the file. *)
Inductive effect (item : InventoryItemInput) (db : Database) : Database -> Prop :=
| eff_none : effect item db db
| eff_insert inv n q :
    db = Some inv ->
    lower (operation item) = "add" ->
    name item = Some n -> quantity item = Some q ->
    effect item db
      (Some {| rows := rows inv ++ [mkRow (next_rowid inv) n q];
               sqlite_sequence := next_rowid inv |})
| eff_update inv i n q :
    db = Some inv ->
    lower (operation item) = "update" ->
    id item = Some i -> name item = Some n -> quantity item = Some q ->
    effect item db
      (Some {| rows := map (set_row n q i) (rows inv);
               sqlite_sequence := sqlite_sequence inv |})
| eff_delete inv i :
    db = Some inv ->
    lower (operation item) = "delete" ->
    id item = Some i ->
    effect item db
      (Some {| rows := filter (fun r => negb (has_id i r)) (rows inv);
               sqlite_sequence := sqlite_sequence inv |}).

(** A request that adds a record, as the agent is instructed to send it. *)
Definition add_request (nq : string * Z) : InventoryItemInput :=
  mkItem "add" None (Some (fst nq)) (Some (snd nq)).

(** The ids [n] inserts in a row get, starting at [first]. *)
Definition fresh_ids (first : Z) (n : nat) : list Z :=
  map (fun k => first + Z.of_nat k) (seq 0 n).

(** The record and the result string of the request [fst p] when the store
    gives it the id [snd p]. *)
Definition added_row (p : (string * Z) * Z) : Row :=
  mkRow (snd p) (fst (fst p)) (snd (fst p)).

Definition added_result (p : (string * Z) * Z) : Result string :=
  Ok ("Added " ++ fst (fst p) ++ " with ID " ++ str (snd p)
        ++ " and quantity " ++ str (snd (fst p)) ++ ".").

(** The engine keeps [sqlite_sequence] at or above every rowid the table
    holds. *)
Definition sequence_ok (db : Database) : Prop :=
  match db with
  | Some inv => max_rowid (rows inv) <= sqlite_sequence inv
  | None => True
  end.

(** The largest id the store has handed out so far. *)
Definition high_water (db : Database) : Z :=
  match db with
  | Some inv => next_rowid inv - 1
  | None => 0
  end.

(** The store as [init_db()] creates it where there was no file. *)
Definition fresh_store : Database := disk (snd (init_db no_faults (at_rest None))).

(* ================================================================= *)
(** ** The entry points *)

(** [main(kickOffMessage)] (lines 148-162). The agent behind [Runner.run]
    is outside the program: its run is a parameter, any computation that
    ends with a final output or raises. *)
Definition main_with_agent (f : Faults) (Runner_run : string -> M (option string))
    (kickOffMessage : string) : M unit :=
  print ("RUN Initiated: " ++ kickOffMessage) ;;;
  final_output <- Runner_run kickOffMessage ;;
  main f final_output.

Definition no_file_banner : string :=
  "No database file found at 'inventory.db'. Initializing a new one.".
Definition file_found_banner : string :=
  "Database file found at 'inventory.db'. Re-using existing inventory.".
Definition kickoff : string := "del item in the inventory: id 2".

(** [start()] (lines 165-172); [path_exists] is [os.path.exists(DB_PATH)].
    The two fault plans are those of [init_db] and of the listing. *)
Definition start (f_init f_list : Faults) (Runner_run : string -> M (option string))
    (path_exists : bool) : M unit :=
  (if negb path_exists then
     print no_file_banner ;;;
     init_db f_init
   else
     print file_found_banner) ;;;
  main_with_agent f_list Runner_run kickoff.

(** The request with its [operation] in lower case. *)
Definition normalized (item : InventoryItemInput) : InventoryItemInput :=
  mkItem (lower (operation item)) (id item) (name item) (quantity item).

(** The state a connection is left in when a function raises before it
    closes it. *)
Definition left_open (w : World) : Prop :=
  connected w = true /\ ~ In EvClose (journal w).

(** An agent run that reaches the store only through the program: the file
    it leaves is one the program's own steps can produce from the file it
    found. *)
Definition uses_only_the_tool (run : M (option string)) : Prop :=
  forall w, lifetime (disk w) (disk (snd (run w))).

(** Every id of the table is positive. *)
Definition ids_positive (db : Database) : Prop :=
  Forall (fun r => 0 < row_id r) (rows_of db).

(* ================================================================= *)
(** ** The errors the engine raises by itself *)

(** SQLite INTEGER values and rowids are signed 64-bit integers. *)
Definition int64_min : Z := - 9223372036854775808.
Definition int64_max : Z := 9223372036854775807.

Definition in_int64 (z : Z) : bool :=
  ((int64_min <=? z)%Z && (z <=? int64_max)%Z)%bool.

(** [OverflowError], raised by [sqlite3] when it binds a Python [int] that
    does not fit. *)
Definition overflow_error : string :=
  "Python int too large to convert to SQLite INTEGER".

(** SQLITE_FULL, raised by an insert into an AUTOINCREMENT table that has
    already handed out the largest rowid. *)
Definition database_full : string := "database or disk is full".

Definition bound_int (x : option Z) : list Z :=
  match x with Some z => [z] | None => [] end.

(** The integers a statement binds, in the order of its parameters. *)
Definition bound_ints (s : Stmt) : list Z :=
  match s with
  | Insert _ q => bound_int q
  | Update _ q i => bound_int q ++ bound_int i
  | Delete i => bound_int i
  | CreateTableIfNotExists | SelectAll => []
  end.

(** The error [execute] raises for the statement [s] on the contents [db]
    for a reason [run_stmt] does not show. Without the table the statement
    is not even prepared ([run_stmt] has that error); with it, parameters
    are bound first, and an insert then needs a rowid. *)
Definition engine_error (s : Stmt) (db : Database) : option string :=
  match db with
  | None => None
  | Some inv =>
      if negb (forallb in_int64 (bound_ints s)) then Some overflow_error
      else
        match s with
        | Insert (Some _) (Some _) =>
            if (int64_max <? next_rowid inv)%Z then Some database_full else None
        | _ => None
        end
  end.

(** The statement [manageInventory] sends for a request, if it sends one:
    the tests of lines 89-110. *)
Definition sent_statement (item : InventoryItemInput) : option Stmt :=
  let operation := lower (operation item) in
  if operation =? "add" then
    if (py_not (name item) || is_None (quantity item))%bool then None
    else Some (Insert (name item) (quantity item))
  else if operation =? "update" then
    if (is_None (id item) || py_not (name item) || is_None (quantity item))%bool
    then None
    else Some (Update (name item) (quantity item) (id item))
  else if operation =? "delete" then
    if is_None (id item) then None else Some (Delete (id item))
  else None.

(** The plan of a store on which nothing fails except what the request
    itself makes the engine refuse. *)
Definition engine_faults (item : InventoryItemInput) (db : Database) : Faults :=
  mkFaults None
    (match sent_statement item with
     | Some s => engine_error s db
     | None => None
     end)
    None.

(** One tool call on such a store. *)
Definition run_tool (item : InventoryItemInput) (db : Database)
    : Result string * World :=
  call (engine_faults item db) item db.

(* ================================================================= *)
(** ** Strings *)

Section Strings.

Lemma startswith_prefix needle hay :
  startswith needle hay = true <-> exists post, hay = needle ++ post.
Proof.
  revert hay. induction needle as [|a n IH]; intros hay; simpl.
  - split; [intros _; now exists hay | reflexivity].
  - destruct hay as [|b h].
    + split; [discriminate | intros [post H]; discriminate].
    + rewrite andb_true_iff, Ascii.eqb_eq, IH. split.
      * intros [-> [post ->]]. now exists post.
      * intros [post H]. injection H as -> ->. split; [reflexivity | now exists post].
Qed.

Lemma contains_substring needle hay :
  contains needle hay = true <-> exists pre post, hay = pre ++ needle ++ post.
Proof.
  induction hay as [|b h IH].
  - simpl. rewrite orb_false_r, startswith_prefix. split.
    + intros [post H]. now exists EmptyString, post.
    + intros [pre [post H]]. destruct pre; [now exists post | discriminate].
  - cbn [contains]. rewrite orb_true_iff, startswith_prefix, IH. split.
    + intros [[post H] | [pre [post H]]].
      * now exists EmptyString, post.
      * exists (String b pre), post. simpl. now rewrite H.
    + intros [pre [post H]]. destruct pre as [|c pre]; simpl in H.
      * left. now exists post.
      * right. injection H as _ H. now exists pre, post.
Qed.

End Strings.

(* ================================================================= *)
(** ** The table *)

Section Table.

Lemma max_rowid_ge rs r : In r rs -> row_id r <= max_rowid rs.
Proof.
  induction rs as [|a rs IH]; simpl; [contradiction|].
  intros [-> | H]; [lia | specialize (IH H); lia].
Qed.

Lemma next_rowid_above inv r : In r (rows inv) -> row_id r < next_rowid inv.
Proof. intros H. apply max_rowid_ge in H. unfold next_rowid. lia. Qed.

Lemma next_rowid_fresh inv : ~ In (next_rowid inv) (map row_id (rows inv)).
Proof.
  intros H. apply in_map_iff in H as [r [E H]].
  apply next_rowid_above in H. lia.
Qed.

Lemma count_id_absent i rs : ~ In i (map row_id rs) -> count_id i rs = 0.
Proof.
  unfold count_id. induction rs as [|a rs IH]; simpl; [reflexivity|].
  intros H. unfold has_id at 1. destruct (Z.eqb_spec (row_id a) i) as [E|E].
  - exfalso. apply H. now left.
  - apply IH. intros H'. apply H. now right.
Qed.

Lemma count_id_present i rs : In i (map row_id rs) -> count_id i rs <> 0.
Proof.
  unfold count_id. induction rs as [|a rs IH]; simpl; [contradiction|].
  intros [E | H]; unfold has_id at 1.
  - rewrite E, Z.eqb_refl. simpl. lia.
  - destruct (row_id a =? i)%Z; [simpl; lia | now apply IH].
Qed.

Lemma set_row_id n q i r : row_id (set_row n q i r) = row_id r.
Proof. unfold set_row. now destruct (has_id i r). Qed.

Lemma set_row_other n q i r : has_id i r = false -> set_row n q i r = r.
Proof. unfold set_row. now intros ->. Qed.

Lemma sorted_snoc rs r :
  StronglySorted by_id rs -> (forall a, In a rs -> row_id a < row_id r) ->
  StronglySorted by_id (rs ++ [r]).
Proof.
  induction 1 as [|a rs Hs IH Ha]; intros Hr; simpl.
  - constructor; constructor.
  - constructor.
    + apply IH. intros b Hb. apply Hr. now right.
    + apply Forall_app. split; [exact Ha|]. constructor; [|constructor].
      apply Hr. now left.
Qed.

Lemma sorted_set_row n q i rs :
  StronglySorted by_id rs -> StronglySorted by_id (map (set_row n q i) rs).
Proof.
  induction 1 as [|a rs Hs IH Ha]; simpl; constructor; [exact IH|].
  apply Forall_map. eapply Forall_impl; [|exact Ha].
  intros b Hb. unfold by_id. now rewrite !set_row_id.
Qed.

Lemma sorted_filter (p : Row -> bool) rs :
  StronglySorted by_id rs -> StronglySorted by_id (filter p rs).
Proof.
  induction 1 as [|a rs Hs IH Ha]; simpl; [constructor|].
  destruct (p a); [|exact IH]. constructor; [exact IH|].
  apply Forall_forall. intros b Hb. apply filter_In in Hb as [Hb _].
  rewrite Forall_forall in Ha. now apply Ha.
Qed.

Lemma sorted_ids rs :
  StronglySorted by_id rs -> StronglySorted Z.lt (map row_id rs).
Proof.
  induction 1 as [|a rs Hs IH Ha]; simpl; constructor; [exact IH|].
  apply Forall_map. exact Ha.
Qed.

Lemma filter_set_row n q i rs :
  filter (fun r => negb (has_id i r)) (map (set_row n q i) rs)
  = filter (fun r => negb (has_id i r)) rs.
Proof.
  induction rs as [|a rs IH]; simpl; [reflexivity|].
  destruct (has_id i a) eqn:E.
  - unfold set_row at 1. rewrite E. unfold has_id at 1. simpl.
    unfold has_id in E. rewrite E. simpl. exact IH.
  - rewrite (set_row_other _ _ _ _ E), E. simpl. now rewrite IH.
Qed.

Lemma filter_idem (p : Row -> bool) rs : filter p (filter p rs) = filter p rs.
Proof.
  induction rs as [|a rs IH]; simpl; [reflexivity|].
  destruct (p a) eqn:E; simpl; [rewrite E; now rewrite IH | exact IH].
Qed.

End Table.

(* ================================================================= *)
(** ** The paths through one tool call *)

Ltac run_call :=
  unfold call, manageInventory, manageInventory_try, bind, try_finally,
    try_except, connect, execute, commit, close, print, ret, at_rest, log, view;
  simpl.

Ltac split_on_tests :=
  repeat match goal with
  | |- context [match ?x with _ => _ end] =>
      match x with
      | connect_fault _ => destruct x eqn:?
      | execute_fault _ => destruct x eqn:?
      | commit_fault _ => destruct x eqn:?
      | String.eqb _ _ => destruct x eqn:?
      | Z.eqb _ _ => destruct x eqn:?
      | orb _ _ => destruct x eqn:?
      | is_None _ => destruct x eqn:?
      | name _ => destruct x eqn:?
      | quantity _ => destruct x eqn:?
      | id _ => destruct x eqn:?
      | run_stmt _ _ => destruct x as [?|[? ?]] eqn:?
      | _ => is_var x; destruct x
      end; simpl
  | |- context [if ?x then _ else _] => destruct x eqn:?; simpl
  end.

Lemma call_connect_fault f item db e :
  connect_fault f = Some e ->
  call f item db = (Raise e, after_call db [EvRaise e]).
Proof. intros H. run_call. rewrite H. reflexivity. Qed.

Lemma omitted_add item :
  omitted_fields KAdd item = [] <->
  (py_not (name item) || is_None (quantity item))%bool = false.
Proof.
  unfold omitted_fields; simpl.
  destruct (py_not (name item)), (is_None (quantity item)); simpl;
    split; intros H; try discriminate; reflexivity.
Qed.

Lemma omitted_update item :
  omitted_fields KUpdate item = [] <->
  (is_None (id item) || py_not (name item) || is_None (quantity item))%bool = false.
Proof.
  unfold omitted_fields; simpl.
  destruct (is_None (id item)), (py_not (name item)), (is_None (quantity item)); simpl;
    split; intros H; try discriminate; reflexivity.
Qed.

Lemma omitted_delete item :
  omitted_fields KDelete item = [] <-> is_None (id item) = false.
Proof.
  unfold omitted_fields; simpl.
  destruct (is_None (id item)); simpl; split; intros H; try discriminate; reflexivity.
Qed.

Lemma call_missing f item db k :
  connect_fault f = None ->
  lower (operation item) = keyword k ->
  omitted_fields k item <> [] ->
  call f item db = (Ok (missing_field k), after_call db [EvConnect; EvClose]).
Proof.
  intros Hc Hk Ho. run_call. rewrite Hc, Hk.
  destruct k; simpl.
  - destruct (py_not (name item) || is_None (quantity item))%bool eqn:E; [reflexivity|].
    apply omitted_add in E. contradiction.
  - destruct (is_None (id item) || py_not (name item) || is_None (quantity item))%bool eqn:E;
      [reflexivity|]. apply omitted_update in E. contradiction.
  - destruct (is_None (id item)) eqn:E; [reflexivity|].
    apply omitted_delete in E. contradiction.
Qed.

Lemma well_formed_tests k item :
  well_formed k item ->
  match k with
  | KAdd => (py_not (name item) || is_None (quantity item))%bool = false
  | KUpdate =>
      (is_None (id item) || py_not (name item) || is_None (quantity item))%bool = false
  | KDelete => is_None (id item) = false
  end.
Proof.
  intros [_ H]. destruct k.
  - now apply omitted_add.
  - now apply omitted_update.
  - now apply omitted_delete.
Qed.

Lemma call_execute_fault f item db k e :
  connect_fault f = None -> execute_fault f = Some e ->
  well_formed k item ->
  call f item db =
  (Ok (error e),
   after_call db [EvConnect; EvExecute (statement k item); EvRaise e; EvClose]).
Proof.
  intros Hc He Hwf. pose proof (well_formed_tests _ _ Hwf) as Ht.
  destruct Hwf as [Hk _]. run_call. rewrite Hc, Hk.
  destruct k; simpl in *; rewrite Ht, He; reflexivity.
Qed.

Lemma call_no_table f item k :
  connect_fault f = None -> execute_fault f = None ->
  well_formed k item ->
  call f item None =
  (Ok (error no_such_table),
   after_call None
     [EvConnect; EvExecute (statement k item); EvRaise no_such_table; EvClose]).
Proof.
  intros Hc He Hwf. pose proof (well_formed_tests _ _ Hwf) as Ht.
  destruct Hwf as [Hk _]. run_call. rewrite Hc, Hk.
  destruct k; simpl in *; rewrite Ht, He; simpl.
  - destruct (name item), (quantity item); reflexivity.
  - destruct (name item), (quantity item), (id item); reflexivity.
  - destruct (id item); reflexivity.
Qed.

Lemma call_add f item inv n q :
  connect_fault f = None -> execute_fault f = None ->
  lower (operation item) = "add" ->
  name item = Some n -> n <> EmptyString -> quantity item = Some q ->
  call f item (Some inv) =
  match commit_fault f with
  | Some e =>
      (Ok (error e),
       after_call (Some inv)
         [EvConnect; EvExecute (Insert (Some n) (Some q)); EvCommit; EvRaise e; EvClose])
  | None =>
      (Ok (added (Some n) (next_rowid inv) (Some q)),
       after_call (Some {| rows := rows inv ++ [mkRow (next_rowid inv) n q];
                        sqlite_sequence := next_rowid inv |})
         [EvConnect; EvExecute (Insert (Some n) (Some q)); EvCommit; EvClose])
  end.
Proof.
  intros Hc He Hk Hn Hne Hq. run_call. rewrite Hc, Hk, Hn, Hq. simpl.
  apply String.eqb_neq in Hne. rewrite Hne, He. simpl.
  destruct (commit_fault f); reflexivity.
Qed.

Lemma call_update f item inv i n q :
  connect_fault f = None -> execute_fault f = None ->
  lower (operation item) = "update" ->
  id item = Some i -> name item = Some n -> n <> EmptyString -> quantity item = Some q ->
  call f item (Some inv) =
  if (count_id i (rows inv) =? 0)%Z then
    (Ok (not_found (Some i)),
     after_call (Some inv)
       [EvConnect; EvExecute (Update (Some n) (Some q) (Some i)); EvClose])
  else
    match commit_fault f with
    | Some e =>
        (Ok (error e),
         after_call (Some inv)
           [EvConnect; EvExecute (Update (Some n) (Some q) (Some i)); EvCommit;
            EvRaise e; EvClose])
    | None =>
        (Ok (updated (Some i) (Some n) (Some q)),
         after_call (Some {| rows := map (set_row n q i) (rows inv);
                          sqlite_sequence := sqlite_sequence inv |})
           [EvConnect; EvExecute (Update (Some n) (Some q) (Some i)); EvCommit; EvClose])
    end.
Proof.
  intros Hc He Hk Hi Hn Hne Hq. run_call. rewrite Hc, Hk, Hi, Hn, Hq. simpl.
  apply String.eqb_neq in Hne. rewrite Hne, He. simpl.
  destruct (count_id i (rows inv) =? 0)%Z eqn:E; simpl.
  - reflexivity.
  - rewrite E. destruct (commit_fault f); reflexivity.
Qed.

Lemma call_delete f item inv i :
  connect_fault f = None -> execute_fault f = None ->
  lower (operation item) = "delete" ->
  id item = Some i ->
  call f item (Some inv) =
  if (count_id i (rows inv) =? 0)%Z then
    (Ok (not_found (Some i)),
     after_call (Some inv) [EvConnect; EvExecute (Delete (Some i)); EvClose])
  else
    match commit_fault f with
    | Some e =>
        (Ok (error e),
         after_call (Some inv)
           [EvConnect; EvExecute (Delete (Some i)); EvCommit; EvRaise e; EvClose])
    | None =>
        (Ok (deleted (Some i)),
         after_call (Some {| rows := filter (fun r => negb (has_id i r)) (rows inv);
                          sqlite_sequence := sqlite_sequence inv |})
           [EvConnect; EvExecute (Delete (Some i)); EvCommit; EvClose])
    end.
Proof.
  intros Hc He Hk Hi. run_call. rewrite Hc, Hk, Hi. simpl. rewrite He. simpl.
  destruct (count_id i (rows inv) =? 0)%Z eqn:E; simpl.
  - reflexivity.
  - destruct (commit_fault f); reflexivity.
Qed.

Lemma call_closed f item db :
  connected (snd (call f item db)) = false /\ txn (snd (call f item db)) = None.
Proof.
  run_call. split_on_tests; auto.
Qed.

Lemma call_invalid f item db :
  connect_fault f = None ->
  lower (operation item) <> "add" ->
  lower (operation item) <> "update" ->
  lower (operation item) <> "delete" ->
  call f item db = (Ok invalid_operation, after_call db [EvConnect; EvClose]).
Proof.
  intros Hc Ha Hu Hd. run_call. rewrite Hc.
  apply String.eqb_neq in Ha, Hu, Hd. now rewrite Ha, Hu, Hd.
Qed.

Lemma py_not_false x : py_not x = false -> exists n, x = Some n /\ n <> EmptyString.
Proof.
  destruct x as [n|]; simpl; [|discriminate].
  intros H. exists n. split; [reflexivity | now apply String.eqb_neq].
Qed.

Lemma is_None_false {A} (x : option A) : is_None x = false -> exists a, x = Some a.
Proof. destruct x as [a|]; simpl; [now exists a | discriminate]. Qed.

Lemma well_formed_add_fields item :
  well_formed KAdd item ->
  exists n q, name item = Some n /\ n <> EmptyString /\ quantity item = Some q.
Proof.
  intros H. apply well_formed_tests in H. apply orb_false_iff in H as [Hn Hq].
  apply py_not_false in Hn as [n [Hn Hne]]. apply is_None_false in Hq as [q Hq].
  now exists n, q.
Qed.

Lemma well_formed_update_fields item :
  well_formed KUpdate item ->
  exists i n q,
    id item = Some i /\ name item = Some n /\ n <> EmptyString /\ quantity item = Some q.
Proof.
  intros H. apply well_formed_tests in H.
  apply orb_false_iff in H as [H Hq]. apply orb_false_iff in H as [Hi Hn].
  apply py_not_false in Hn as [n [Hn Hne]]. apply is_None_false in Hq as [q Hq].
  apply is_None_false in Hi as [i Hi]. now exists i, n, q.
Qed.

Lemma well_formed_delete_fields item :
  well_formed KDelete item -> exists i, id item = Some i.
Proof. intros H. apply well_formed_tests in H. now apply is_None_false in H. Qed.

(** Whatever the request and the environment, a call leaves the file as it
    was or applies exactly the one change the request asks for. *)
Lemma call_effect f item db : effect item db (disk (snd (call f item db))).
Proof.
  run_call. split_on_tests;
    repeat match goal with
           | H : (_ =? _)%string = true |- _ => apply String.eqb_eq in H
           | H : inr _ = inr _ |- _ => injection H as <- <-
           | H : inl _ = inr _ |- _ => discriminate H
           end;
    first [ apply eff_none
          | eapply eff_insert; eauto; fail
          | eapply eff_update; eauto; fail
          | eapply eff_delete; eauto; fail ].
Qed.

Lemma effect_table_ok item db db' :
  effect item db db' -> table_ok db -> table_ok db'.
Proof.
  unfold table_ok. intros [ | inv n q -> _ _ _ | inv i n q -> _ _ _ _ | inv i -> _ _ ];
    simpl; intros H.
  - exact H.
  - apply sorted_snoc; [exact H|]. intros a Ha. simpl. now apply next_rowid_above.
  - now apply sorted_set_row.
  - now apply sorted_filter.
Qed.

Lemma effect_keeps_table item db db' :
  effect item db db' -> db <> None -> db' <> None.
Proof. intros E Hdb. destruct E; first [exact Hdb | discriminate]. Qed.

Lemma effect_frame item db db' :
  effect item db db' ->
  lower (operation item) = "update" \/ lower (operation item) = "delete" ->
  filter (fun r => negb (targets item r)) (rows_of db')
  = filter (fun r => negb (targets item r)) (rows_of db).
Proof.
  intros [ | inv n q -> Hk _ _ | inv i n q -> _ Hi _ _ | inv i -> _ Hi ] Hop;
    simpl; unfold targets.
  - reflexivity.
  - rewrite Hk in Hop. destruct Hop; discriminate.
  - rewrite Hi. apply filter_set_row.
  - rewrite Hi. apply filter_idem.
Qed.

Lemma init_db_disk f db :
  disk (snd (init_db f (at_rest db))) = db \/
  (db = None /\ disk (snd (init_db f (at_rest db))) = Some empty_inventory).
Proof.
  unfold init_db, bind, connect, execute, commit, close, at_rest, log, view; simpl.
  destruct (connect_fault f); simpl; [now left|].
  destruct (execute_fault f); simpl; [now left|].
  destruct db as [inv|]; simpl; destruct (commit_fault f); simpl; auto.
Qed.

Lemma init_db_fresh :
  init_db no_faults (at_rest None)
  = (Ok tt, mkWorld (Some empty_inventory) None false
              [EvConnect; EvExecute CreateTableIfNotExists; EvCommit; EvClose] []).
Proof. reflexivity. Qed.

Lemma lifetime_table_ok db db' : lifetime db db' -> table_ok db -> table_ok db'.
Proof.
  induction 1 as [ | f db1 _ IH | f item db1 _ IH ]; intros H.
  - exact H.
  - specialize (IH H).
    destruct (init_db_disk f db1) as [-> | [_ ->]]; [exact IH | constructor].
  - eapply effect_table_ok; [apply call_effect | now apply IH].
Qed.

Lemma lifetime_keeps_table db db' : lifetime db db' -> db <> None -> db' <> None.
Proof.
  induction 1 as [ | f db1 _ IH | f item db1 _ IH ]; intros H.
  - exact H.
  - specialize (IH H).
    destruct (init_db_disk f db1) as [-> | [_ ->]]; [exact IH | discriminate].
  - eapply effect_keeps_table; [apply call_effect | now apply IH].
Qed.

Lemma fetch_inventory_ok inv :
  fetch_inventory no_faults (at_rest (Some inv))
  = (Ok (rows inv),
     mkWorld (Some inv) None false [EvConnect; EvExecute SelectAll; EvClose] []).
Proof. reflexivity. Qed.

Lemma read_ok inv i :
  fst (read no_faults i (at_rest (Some inv))) = Ok (find (has_id i) (rows inv)).
Proof. reflexivity. Qed.

(* ================================================================= *)
(** ** Validation *)

Lemma missing_field_names k : named_fields (missing_field k) = required k.
Proof. destruct k; reflexivity. Qed.

(** Claim C1, as the code has it. For each of the three operations the
    code knows ([add], [update], [delete], compared after lower-casing) and
    every request of that kind that omits at least one required field, the
    call returns that operation's fixed message, which names all the fields
    the operation requires (not only the omitted ones); no statement and no
    commit reach the store, and the file is left as it was. *)
Theorem missing_field_rejected f item db k :
  lower (operation item) = keyword k ->
  omitted_fields k item <> [] ->
  (connect_fault f = None ->
   call f item db
   = (Ok (missing_field k), after_call db [EvConnect; EvClose]))
  /\ named_fields (missing_field k) = required k
  /\ untouched (snd (call f item db))
  /\ disk (snd (call f item db)) = db.
Proof.
  intros Hk Ho. split; [|split; [apply missing_field_names|]].
  - intros Hc. now apply call_missing.
  - destruct (connect_fault f) as [e|] eqn:Hc.
    + rewrite (call_connect_fault _ _ _ _ Hc). split; [|reflexivity].
      intros ev [<- | []]. right. right. now exists e.
    + rewrite (call_missing _ _ _ _ Hc Hk Ho). split; [|reflexivity].
      intros ev [<- | [<- | []]]; auto.
Qed.

Lemma missing_field_rejected_witness :
  call no_faults (mkItem "Delete" None None None) (Some empty_inventory)
  = (Ok delete_required,
     after_call (Some empty_inventory) [EvConnect; EvClose]).
Proof.
  apply (missing_field_rejected no_faults (mkItem "Delete" None None None)
           (Some empty_inventory) KDelete); [reflexivity | discriminate | reflexivity].
Defined.

(** Claim C1 as stated fails: an [update] request that omits only the
    quantity gets a message that also names the id and the name. *)
Lemma missing_field_names_all_required :
  let item := mkItem "update" (Some 1) (Some "Bolt") None in
  fst (call no_faults item (Some empty_inventory)) = Ok update_required
  /\ omitted_fields KUpdate item = [FQuantity]
  /\ named_fields update_required = [FId; FName; FQuantity]
  /\ named_fields update_required <> omitted_fields KUpdate item.
Proof. repeat split; discriminate. Qed.

(* ================================================================= *)
(** ** Adding a record *)

(** Claim C2, as the code has it. The operation that inserts is [add]: for
    every well-formed request whose operation is [add] after lower-casing,
    on a store that has its table and raises nothing, the call inserts one
    record with the given name and quantity under the id the store assigns
    (one that no record of the table has), commits, and returns
    "Added {name} with ID {id} and quantity {quantity}.", which is not the
    invalid-operation message. A request whose operation is [create] gets
    the invalid-operation message and reaches no statement. *)
Theorem add_inserts item inv :
  well_formed KAdd item ->
  exists n q,
    name item = Some n /\ quantity item = Some q /\
    call no_faults item (Some inv)
    = (Ok ("Added " ++ n ++ " with ID " ++ str (next_rowid inv)
             ++ " and quantity " ++ str q ++ "."),
       after_call
         (Some {| rows := rows inv ++ [mkRow (next_rowid inv) n q];
                  sqlite_sequence := next_rowid inv |})
         [EvConnect; EvExecute (Insert (Some n) (Some q)); EvCommit; EvClose])
    /\ ~ In (next_rowid inv) (map row_id (rows inv))
    /\ fst (call no_faults item (Some inv)) <> Ok invalid_operation
    /\ forall other db,
         lower (operation other) = "create" ->
         call no_faults other db
         = (Ok invalid_operation, after_call db [EvConnect; EvClose]).
Proof.
  intros Hwf. destruct (well_formed_add_fields _ Hwf) as [n [q [Hn [Hne Hq]]]].
  destruct Hwf as [Hk _]. exists n, q.
  pose proof (call_add no_faults item inv n q eq_refl eq_refl Hk Hn Hne Hq) as E.
  simpl in E.
  refine (conj Hn (conj Hq (conj E (conj (next_rowid_fresh inv) (conj _ _))))).
  - rewrite E. simpl. unfold added. simpl. discriminate.
  - intros other db Hcreate.
    apply call_invalid; [reflexivity | | | ]; rewrite Hcreate; discriminate.
Qed.

Lemma add_inserts_witness :
  exists n q,
    Some "Bolt" = Some n /\ Some 10 = Some q /\
    call no_faults (mkItem "ADD" None (Some "Bolt") (Some 10)) (Some empty_inventory)
    = (Ok ("Added " ++ n ++ " with ID " ++ str 1 ++ " and quantity " ++ str q ++ "."),
       after_call (Some {| rows := [mkRow 1 n q]; sqlite_sequence := 1 |})
         [EvConnect; EvExecute (Insert (Some n) (Some q)); EvCommit; EvClose])
    /\ ~ In 1 (map row_id [])
    /\ fst (call no_faults (mkItem "ADD" None (Some "Bolt") (Some 10))
              (Some empty_inventory)) <> Ok invalid_operation
    /\ forall other db,
         lower (operation other) = "create" ->
         call no_faults other db
         = (Ok invalid_operation, after_call db [EvConnect; EvClose]).
Proof.
  apply (add_inserts (mkItem "ADD" None (Some "Bolt") (Some 10)) empty_inventory).
  split; reflexivity.
Defined.

(** Claim C2 as stated fails: a well-formed request whose operation is
    [create] is rejected as an invalid operation and nothing is inserted. *)
Lemma create_is_rejected :
  call no_faults (mkItem "create" None (Some "Bolt") (Some 10)) (Some empty_inventory)
  = (Ok "Error: Invalid operation. Use 'add', 'update', or 'delete'.",
     after_call (Some empty_inventory) [EvConnect; EvClose]).
Proof. reflexivity. Qed.

(* ================================================================= *)
(** ** Requests for an id the table does not hold *)

Lemma sent_statement_well_formed k item :
  well_formed k item -> sent_statement item = Some (statement k item).
Proof.
  intros Hwf. pose proof (well_formed_tests _ _ Hwf) as Ht.
  destruct Hwf as [Hk _]. unfold sent_statement. rewrite Hk.
  destruct k; simpl in *; now rewrite Ht.
Qed.

(** The statement a call executes, if it executes one, is the one
    [sent_statement] gives: [engine_faults] looks at the right statement. *)
Lemma executed_is_sent f item db s :
  In (EvExecute s) (journal (snd (call f item db))) -> sent_statement item = Some s.
Proof.
  unfold sent_statement. run_call.
  split_on_tests; simpl; intros H;
    repeat (destruct H as [H | H]; try discriminate H);
    try contradiction; now injection H as <-.
Qed.

(** Claim C3, as the code has it. A well-formed [update] or [delete]
    request for an id that no record has leaves the file exactly as it
    was, whatever the environment does. On a store that raises nothing but
    what the request makes the engine refuse, the call returns
    "Error: Item with ID {id} not found." when the integers of the request
    (the id, and the quantity of an update) fit in 64 bits; when one of
    them does not, binding it raises and the call returns
    "Error: Python int too large to convert to SQLite INTEGER". *)
Theorem not_found_leaves_store f k item i inv :
  k = KUpdate \/ k = KDelete ->
  well_formed k item -> id item = Some i ->
  ~ In i (map row_id (rows inv)) ->
  disk (snd (call f item (Some inv))) = Some inv
  /\ disk (snd (run_tool item (Some inv))) = Some inv
  /\ fst (run_tool item (Some inv))
     = if forallb in_int64 (bound_ints (statement k item))
       then Ok ("Error: Item with ID " ++ str i ++ " not found.")
       else Ok "Error: Python int too large to convert to SQLite INTEGER".
Proof.
  intros Hkind Hwf Hi Habs. apply count_id_absent in Habs.
  assert (Hrun : forall g, connect_fault g = None -> execute_fault g = None ->
                 call g item (Some inv)
                 = (Ok (not_found (Some i)),
                    after_call (Some inv)
                      [EvConnect; EvExecute (statement k item); EvClose])).
  { intros g Hc He. destruct Hkind as [-> | ->].
    - destruct (well_formed_update_fields _ Hwf) as [i' [n [q [Hi' [Hn [Hne Hq]]]]]].
      rewrite Hi in Hi'. injection Hi' as <-. destruct Hwf as [Hk _].
      rewrite (call_update g item inv i n q Hc He Hk Hi Hn Hne Hq), Habs.
      simpl. now rewrite Hi, Hn, Hq.
    - destruct Hwf as [Hk _].
      rewrite (call_delete g item inv i Hc He Hk Hi), Habs. simpl. now rewrite Hi. }
  assert (Hdisk : forall g, disk (snd (call g item (Some inv))) = Some inv).
  { intros g. destruct (connect_fault g) as [e|] eqn:Hc.
    - now rewrite (call_connect_fault _ _ _ _ Hc).
    - destruct (execute_fault g) as [e|] eqn:He.
      + now rewrite (call_execute_fault _ _ _ k _ Hc He Hwf).
      + now rewrite Hrun. }
  refine (conj (Hdisk f) (conj (Hdisk _) _)).
  unfold run_tool.
  assert (Hplan : execute_fault (engine_faults item (Some inv))
                  = if forallb in_int64 (bound_ints (statement k item))
                    then None else Some overflow_error).
  { unfold engine_faults. cbn [execute_fault].
    rewrite (sent_statement_well_formed _ _ Hwf). unfold engine_error.
    destruct (forallb in_int64 (bound_ints (statement k item))); cbn [negb];
      [|reflexivity].
    destruct Hkind as [-> | ->]; reflexivity. }
  destruct (forallb in_int64 (bound_ints (statement k item))).
  - now rewrite (Hrun (engine_faults item (Some inv)) eq_refl Hplan).
  - now rewrite (call_execute_fault (engine_faults item (Some inv)) _ _ k _
                   eq_refl Hplan Hwf).
Qed.

Lemma not_found_leaves_store_witness :
  disk (snd (call (mkFaults None None (Some "disk I/O error"))
               (mkItem "update" (Some 7) (Some "Bolt") (Some 3))
               (Some {| rows := [mkRow 1 "Bolt" 10]; sqlite_sequence := 1 |})))
  = Some {| rows := [mkRow 1 "Bolt" 10]; sqlite_sequence := 1 |}
  /\ disk (snd (run_tool (mkItem "update" (Some 7) (Some "Bolt") (Some 3))
                  (Some {| rows := [mkRow 1 "Bolt" 10]; sqlite_sequence := 1 |})))
     = Some {| rows := [mkRow 1 "Bolt" 10]; sqlite_sequence := 1 |}
  /\ fst (run_tool (mkItem "update" (Some 7) (Some "Bolt") (Some 3))
             (Some {| rows := [mkRow 1 "Bolt" 10]; sqlite_sequence := 1 |}))
     = Ok "Error: Item with ID 7 not found.".
Proof.
  apply (not_found_leaves_store (mkFaults None None (Some "disk I/O error")) KUpdate
           (mkItem "update" (Some 7) (Some "Bolt") (Some 3)) 7
           {| rows := [mkRow 1 "Bolt" 10]; sqlite_sequence := 1 |}).
  - now left.
  - split; reflexivity.
  - reflexivity.
  - simpl. intros [H | []]. discriminate H.
Defined.

(** Claim C3 as stated fails: a well-formed [delete] for the id 2^63, which
    no record has, does not get the not-found message; binding the id
    raises and the call returns the engine's error. *)
Lemma absent_id_beyond_64_bits :
  let item := mkItem "delete" (Some 9223372036854775808) None None in
  let inv := {| rows := [mkRow 1 "Bolt" 10]; sqlite_sequence := 1 |} in
  well_formed KDelete item
  /\ ~ In 9223372036854775808 (map row_id (rows inv))
  /\ fst (run_tool item (Some inv))
     = Ok "Error: Python int too large to convert to SQLite INTEGER"
  /\ fst (run_tool item (Some inv)) <> Ok (not_found (id item)).
Proof.
  repeat split; try discriminate. simpl. intros [H | []]. discriminate H.
Qed.

(* ================================================================= *)
(** ** Exceptions *)

Ltac settle_raise H :=
  repeat (destruct H as [H | H]; try discriminate H);
  try contradiction;
  try (injection H as <-);
  repeat match goal with
         | E : inl _ = inl _ |- _ => injection E as <-
         | E : inr _ = inl _ |- _ => discriminate E
         | E : inl _ = inr _ |- _ => discriminate E
         end.

(** The result of a call in which the store raised is the [except] clause's. *)
Lemma raise_result f item db msg :
  connect_fault f = None ->
  store_raised msg (snd (call f item db)) ->
  fst (call f item db) = Ok (error msg).
Proof.
  intros Hc. unfold store_raised. run_call. rewrite Hc. simpl.
  split_on_tests; simpl; intros H; settle_raise H; reflexivity.
Qed.

(** Claim C4, as the code has it. When the store raises during a call
    whose connection has opened (while the statement runs or on commit),
    the call does not raise: it returns "Error: {message}" with the
    message of the exception, the transaction is dropped when the
    connection closes, and the file is exactly what it was before the
    call. When it is opening the connection that raises, before the [try],
    the exception is not caught and leaves the call; nothing was written
    and no connection is open. *)
Theorem store_fault_caught f item db msg :
  store_raised msg (snd (call f item db)) ->
  match connect_fault f with
  | None => fst (call f item db) = Ok ("Error: " ++ msg)
  | Some e => e = msg /\ fst (call f item db) = Raise msg
  end
  /\ disk (snd (call f item db)) = db
  /\ txn (snd (call f item db)) = None
  /\ connected (snd (call f item db)) = false.
Proof.
  intros Hr. destruct (call_closed f item db) as [Hclosed Htxn].
  destruct (connect_fault f) as [e|] eqn:Hc.
  - rewrite (call_connect_fault _ _ _ _ Hc) in *.
    destruct Hr as [Hr | []]. injection Hr as ->. repeat split.
  - refine (conj (raise_result f item db msg Hc Hr) (conj _ (conj Htxn Hclosed))).
    clear Hclosed Htxn.
    (* a call changes the file only by committing, and a call that commits
       has seen no exception *)
    revert Hr. unfold store_raised. run_call. rewrite Hc. simpl.
    split_on_tests; simpl; intros H; settle_raise H; reflexivity.
Qed.

Lemma store_fault_caught_witness :
  fst (call (mkFaults None None (Some "disk I/O error"))
         (mkItem "add" None (Some "Bolt") (Some 10)) (Some empty_inventory))
  = Ok "Error: disk I/O error"
  /\ disk (snd (call (mkFaults None None (Some "disk I/O error"))
                  (mkItem "add" None (Some "Bolt") (Some 10)) (Some empty_inventory)))
     = Some empty_inventory
  /\ txn (snd (call (mkFaults None None (Some "disk I/O error"))
                 (mkItem "add" None (Some "Bolt") (Some 10)) (Some empty_inventory)))
     = None
  /\ connected (snd (call (mkFaults None None (Some "disk I/O error"))
                       (mkItem "add" None (Some "Bolt") (Some 10))
                       (Some empty_inventory)))
     = false.
Proof.
  apply (store_fault_caught (mkFaults None None (Some "disk I/O error"))
           (mkItem "add" None (Some "Bolt") (Some 10)) (Some empty_inventory)
           "disk I/O error").
  unfold store_raised. simpl. tauto.
Defined.

(** Claim C4 as stated fails: an I/O error of the store raised while the
    connection is opened is not turned into a result string; the call
    raises. *)
Lemma store_fault_at_connect_escapes :
  let f := mkFaults (Some "unable to open database file") None None in
  let item := mkItem "delete" (Some 1) None None in
  let db := Some {| rows := [mkRow 1 "Bolt" 10]; sqlite_sequence := 1 |} in
  store_raised "unable to open database file" (snd (call f item db))
  /\ fst (call f item db) = Raise "unable to open database file"
  /\ fst (call f item db) <> Ok "Error: unable to open database file".
Proof.
  intros f item db. refine (conj _ (conj eq_refl _)).
  - unfold store_raised. simpl. tauto.
  - discriminate.
Qed.

(** Claim C9, as the code has it. The connection is opened before the
    [try] statement. When it opens, the call returns a string whatever the
    request and the store are, every exception raised inside the [try]
    block comes back as "Error: {message}", and the last thing the call
    does on the connection is to close it. When opening it raises, that
    exception reaches the caller. In both cases no connection is left
    open. *)
Theorem tool_boundary f item db :
  match connect_fault f with
  | None =>
      exists s, fst (call f item db) = Ok s
        /\ hd_error (journal (snd (call f item db))) = Some EvConnect
        /\ last (journal (snd (call f item db))) EvConnect = EvClose
        /\ forall e, store_raised e (snd (call f item db)) -> s = "Error: " ++ e
  | Some e => fst (call f item db) = Raise e
  end
  /\ connected (snd (call f item db)) = false.
Proof.
  split; [|apply call_closed].
  destruct (connect_fault f) as [e|] eqn:Hc.
  - now rewrite (call_connect_fault _ _ _ _ Hc).
  - assert (Hs : exists s, fst (call f item db) = Ok s
                   /\ hd_error (journal (snd (call f item db))) = Some EvConnect
                   /\ last (journal (snd (call f item db))) EvConnect = EvClose).
    { run_call. rewrite Hc. simpl. split_on_tests; eauto. }
    destruct Hs as [s [Hs [Hfirst Hlast]]]. exists s.
    refine (conj Hs (conj Hfirst (conj Hlast _))).
    intros e He. pose proof (raise_result f item db e Hc He) as E.
    rewrite Hs in E. now injection E.
Qed.

(** Claim C9 as stated fails: when [sqlite3.connect] raises, the call
    raises too and returns no string. *)
Lemma connect_failure_propagates :
  let f := mkFaults (Some "unable to open database file") None None in
  let item := mkItem "add" None (Some "Bolt") (Some 10) in
  fst (call f item (Some empty_inventory)) = Raise "unable to open database file"
  /\ forall s, fst (call f item (Some empty_inventory)) <> Ok s.
Proof. split; [reflexivity | discriminate]. Qed.

(* ================================================================= *)
(** ** The records a request does not name *)

Lemma sorted_at_most_one i rs :
  StronglySorted by_id rs -> (List.length (filter (has_id i) rs) <= 1)%nat.
Proof.
  induction 1 as [|a rs Hs IH Ha]; simpl; [lia|].
  destruct (has_id i a) eqn:E; [|exact IH].
  assert (Hnone : filter (has_id i) rs = []).
  { clear IH Hs. induction rs as [|b rs IH]; simpl; [reflexivity|].
    inversion Ha as [|? ? Hb Hrest]; subst. unfold has_id at 1.
    unfold has_id in E. apply Z.eqb_eq in E. unfold by_id in Hb.
    destruct (Z.eqb_spec (row_id b) i) as [Eb|Eb]; [lia | now apply IH]. }
  rewrite Hnone. simpl. lia.
Qed.

(** Claim C10. An [update] or [delete] request, whatever its fields, the
    store and the environment, leaves every record whose id is not the
    request's id in the table, with the same name and quantity and in the
    same place; and a table holds at most one record with the request's
    id. *)
Theorem other_records_unchanged f item db :
  lower (operation item) = "update" \/ lower (operation item) = "delete" ->
  filter (fun r => negb (targets item r)) (rows_of (disk (snd (call f item db))))
  = filter (fun r => negb (targets item r)) (rows_of db)
  /\ (forall r, targets item r = false ->
        (In r (rows_of (disk (snd (call f item db)))) <-> In r (rows_of db)))
  /\ (table_ok db -> (List.length (filter (targets item) (rows_of db)) <= 1)%nat).
Proof.
  intros Hop.
  pose proof (effect_frame _ _ _ (call_effect f item db) Hop) as E.
  split; [exact E|]. split.
  - intros r Hr.
    assert (Hin : forall l, In r l <-> In r (filter (fun r => negb (targets item r)) l)).
    { intros l. rewrite filter_In, Hr. simpl. tauto. }
    rewrite (Hin (rows_of (disk (snd (call f item db))))), (Hin (rows_of db)), E. tauto.
  - intros Hok. unfold targets. destruct (id item) as [i|].
    + now apply sorted_at_most_one.
    + clear. induction (rows_of db) as [|a l IH]; simpl; lia.
Qed.

Lemma other_records_unchanged_witness :
  let db := Some {| rows := [mkRow 1 "Bolt" 10; mkRow 2 "Nut" 4]; sqlite_sequence := 2 |} in
  let item := mkItem "delete" (Some 2) None None in
  filter (fun r => negb (targets item r)) (rows_of (disk (snd (call no_faults item db))))
  = [mkRow 1 "Bolt" 10].
Proof.
  intros db item.
  destruct (other_records_unchanged no_faults item db) as [E _].
  - right. reflexivity.
  - rewrite E. reflexivity.
Defined.

(* ================================================================= *)
(** ** The listing *)

(** Claim C5, as the code has it. The listing is rendered exactly when the
    final output is a string that contains the text "is inventory"; so it is
    rendered for every summary whose [response_type] is "is inventory". *)
Theorem shouldListInventory_substring :
  (forall out,
     shouldListInventory out = true <->
     exists pre post, out = Some (pre ++ "is inventory" ++ post))
  /\ (forall o, response_type o = "is inventory" ->
        shouldListInventory (Some (summary_text o)) = true).
Proof.
  assert (H : forall out,
             shouldListInventory out = true <->
             exists pre post, out = Some (pre ++ "is inventory" ++ post)).
  { intros [s|]; simpl.
    - rewrite andb_true_iff, negb_true_iff, contains_substring. split.
      + intros [_ [pre [post ->]]]. now exists pre, post.
      + intros [pre [post E]]. injection E as ->. split; [|now exists pre, post].
        apply String.eqb_neq. destruct pre; discriminate.
    - split; [discriminate | intros [pre [post E]]; discriminate]. }
  split; [exact H|].
  intros o Ho. apply H. unfold summary_text. rewrite Ho.
  exists (dquote ++ "response_type" ++ dquote ++ ": " ++ dquote).
  exists (dquote ++ ", " ++ dquote ++ "inventory_data" ++ dquote ++ ": "
            ++ dquote ++ fmt_str (inventory_data o) ++ dquote).
  reflexivity.
Qed.

Lemma shouldListInventory_substring_witness :
  shouldListInventory (Some (summary_text (mkOutput "is inventory" (Some "Added Bolt.")))) = true.
Proof.
  apply (proj2 shouldListInventory_substring (mkOutput "is inventory" (Some "Added Bolt."))).
  reflexivity.
Defined.

(** Claim C5 as stated fails: a summary whose [response_type] is
    "not inventory" is listed when its text contains "is inventory". *)
Lemma not_inventory_summary_is_listed :
  let o := mkOutput "not inventory" (Some "Nothing is inventory related") in
  response_type o <> "is inventory"
  /\ shouldListInventory (Some (summary_text o)) = true.
Proof. split; [discriminate | reflexivity]. Qed.

Lemma print_rows_ok rows : forall w,
  print_rows rows w
  = (Ok tt, {| disk := disk w; txn := txn w; connected := connected w;
               journal := journal w; stdout := stdout w ++ map row_line rows |}).
Proof.
  induction rows as [|r rows IH]; intros w; simpl.
  - unfold ret. rewrite app_nil_r. now destruct w.
  - unfold bind, print. rewrite IH. simpl. now rewrite <- app_assoc.
Qed.

(** Claim C6. Through any sequence of [init_db] runs and tool calls, from a
    table in rowid order, once the table exists: when the listing is
    rendered and the store raises nothing, [main] prints the final output,
    the heading and then one line for each record of the table and no
    other, and these lines are in strictly increasing id order. The query
    has no ORDER BY: the order is that of the table scan. *)
Theorem listing_in_id_order db0 db out :
  table_ok db0 -> lifetime db0 db -> db <> None ->
  shouldListInventory out = true ->
  main no_faults out (at_rest db)
  = (Ok tt,
     mkWorld db None false [EvConnect; EvExecute SelectAll; EvClose]
       (fmt_str out :: listing_heading :: map row_line (rows_of db)))
  /\ StronglySorted Z.lt (map row_id (rows_of db)).
Proof.
  intros Hok Hlife Hdb Hout. split.
  - destruct db as [inv|]; [|contradiction].
    unfold main. rewrite Hout.
    unfold bind, print, fetch_inventory, bind, connect, execute, close, ret, at_rest.
    simpl. rewrite print_rows_ok. reflexivity.
  - apply sorted_ids. exact (lifetime_table_ok _ _ Hlife Hok).
Qed.

Lemma listing_in_id_order_witness :
  let db := disk (snd (call no_faults (mkItem "add" None (Some "Nut") (Some 4))
              (disk (snd (call no_faults (mkItem "add" None (Some "Bolt") (Some 10))
                            fresh_store))))) in
  stdout (snd (main no_faults (Some "is inventory") (at_rest db)))
  = ["is inventory"; listing_heading;
     "ID: 1, Name: Bolt, Quantity: 10"; "ID: 2, Name: Nut, Quantity: 4"]
  /\ StronglySorted Z.lt [1; 2].
Proof.
  intros db.
  destruct (listing_in_id_order None db (Some "is inventory")) as [E S].
  - constructor.
  - unfold db, fresh_store. apply life_call. apply life_call. apply life_init_db.
    apply life_start.
  - discriminate.
  - reflexivity.
  - split; [rewrite E; reflexivity | exact S].
Defined.

(* ================================================================= *)
(** ** Ids *)

Section Ids.

Lemma fresh_ids_S a n : fresh_ids a (S n) = a :: fresh_ids (a + 1) n.
Proof.
  unfold fresh_ids. simpl. f_equal; [lia|].
  rewrite <- seq_shift, map_map. apply map_ext. intros k. lia.
Qed.

Lemma fresh_ids_length a n : List.length (fresh_ids a n) = n.
Proof. unfold fresh_ids. now rewrite length_map, length_seq. Qed.

Lemma fresh_ids_ge n : forall a, Forall (fun i => a <= i) (fresh_ids a n).
Proof.
  induction n as [|n IH]; intros a; [constructor|].
  rewrite fresh_ids_S. constructor; [lia|].
  eapply Forall_impl; [|apply (IH (a + 1))]. simpl. intros i Hi. lia.
Qed.

Lemma fresh_ids_sorted n : forall a, StronglySorted Z.lt (fresh_ids a n).
Proof.
  induction n as [|n IH]; intros a; [constructor|].
  rewrite fresh_ids_S. constructor; [apply IH|].
  eapply Forall_impl; [|apply (fresh_ids_ge n (a + 1))]. simpl. intros i Hi. lia.
Qed.

Lemma sorted_lt_NoDup l : StronglySorted Z.lt l -> NoDup l.
Proof.
  induction 1 as [|a l Hs IH Ha]; constructor; [|exact IH].
  intros Hin. rewrite Forall_forall in Ha. specialize (Ha _ Hin). lia.
Qed.

Lemma max_rowid_nonneg rs : 0 <= max_rowid rs.
Proof. induction rs as [|a rs IH]; simpl; lia. Qed.

Lemma max_rowid_snoc rs r :
  max_rowid (rs ++ [r]) = Z.max (max_rowid rs) (Z.max (row_id r) 0).
Proof. induction rs as [|a rs IH]; simpl; [lia | rewrite IH; lia]. Qed.

Lemma next_rowid_insert inv n q :
  next_rowid {| rows := rows inv ++ [mkRow (next_rowid inv) n q];
                sqlite_sequence := next_rowid inv |}
  = next_rowid inv + 1.
Proof.
  unfold next_rowid at 1. simpl. rewrite max_rowid_snoc. simpl.
  pose proof (max_rowid_nonneg (rows inv)). unfold next_rowid. lia.
Qed.

Lemma find_app (p : Row -> bool) l1 l2 :
  find p (l1 ++ l2)
  = match find p l1 with Some r => Some r | None => find p l2 end.
Proof.
  induction l1 as [|a l1 IH]; simpl; [reflexivity|]. now destruct (p a).
Qed.

Lemma find_absent i l : ~ In i (map row_id l) -> find (has_id i) l = None.
Proof.
  induction l as [|a l IH]; simpl; [reflexivity|]. intros H.
  unfold has_id at 1. destruct (Z.eqb_spec (row_id a) i) as [E|E].
  - exfalso. apply H. now left.
  - apply IH. intros Hin. apply H. now right.
Qed.

Lemma find_unique l r :
  NoDup (map row_id l) -> In r l -> find (has_id (row_id r)) l = Some r.
Proof.
  induction l as [|a l IH]; simpl; [contradiction|].
  intros Hnd Hin. inversion Hnd as [|? ? Hna Hnd']; subst.
  destruct Hin as [-> | Hin].
  - unfold has_id. now rewrite Z.eqb_refl.
  - unfold has_id at 1. destruct (Z.eqb_spec (row_id a) (row_id r)) as [E|E].
    + exfalso. apply Hna. rewrite E. now apply in_map.
    + now apply IH.
Qed.

Lemma added_row_ids reqs : forall ids,
  List.length ids = List.length reqs ->
  map row_id (map added_row (combine reqs ids)) = ids.
Proof.
  induction reqs as [|nq reqs IH]; intros [|i ids] H; simpl in *;
    try discriminate; [reflexivity|].
  f_equal. apply IH. now injection H.
Qed.

Lemma map_set_row_absent n q i l :
  ~ In i (map row_id l) -> map (set_row n q i) l = l.
Proof.
  induction l as [|a l IH]; simpl; [reflexivity|]. intros H.
  rewrite IH by (intros Hin; apply H; now right).
  rewrite set_row_other; [reflexivity|].
  unfold has_id. apply Z.eqb_neq. intros E. apply H. now left.
Qed.

Lemma filter_absent i l :
  ~ In i (map row_id l) -> filter (fun r => negb (has_id i r)) l = l.
Proof.
  induction l as [|a l IH]; simpl; [reflexivity|]. intros H.
  rewrite IH by (intros Hin; apply H; now right).
  unfold has_id. destruct (Z.eqb_spec (row_id a) i) as [E|E]; [|reflexivity].
  exfalso. apply H. now left.
Qed.

Lemma calls_add reqs : forall inv,
  Forall (fun nq => fst nq <> EmptyString) reqs ->
  exists inv',
    calls no_faults (map add_request reqs) (Some inv)
    = (map added_result (combine reqs (fresh_ids (next_rowid inv) (List.length reqs))),
       Some inv')
    /\ rows inv'
       = (rows inv
            ++ map added_row
                 (combine reqs (fresh_ids (next_rowid inv) (List.length reqs))))%list.
Proof.
  induction reqs as [|[n q] reqs IH]; intros inv Hne.
  - exists inv. simpl. now rewrite app_nil_r.
  - inversion Hne as [|? ? Hn Hrest]; subst. simpl in Hn.
    pose proof (call_add no_faults (add_request (n, q)) inv n q
                  eq_refl eq_refl eq_refl eq_refl Hn eq_refl) as E.
    simpl in E.
    destruct (IH {| rows := rows inv ++ [mkRow (next_rowid inv) n q];
                    sqlite_sequence := next_rowid inv |} Hrest)
      as [inv' [Ecalls Erows]].
    rewrite next_rowid_insert in Ecalls, Erows. simpl in Erows.
    exists inv'. cbn [map calls List.length]. rewrite E. cbn [disk after_call].
    rewrite Ecalls, fresh_ids_S. split; [reflexivity|].
    rewrite Erows, <- app_assoc. reflexivity.
Qed.

Lemma max_rowid_set_row n q i rs : max_rowid (map (set_row n q i) rs) = max_rowid rs.
Proof.
  induction rs as [|a rs IH]; simpl; [reflexivity|]. now rewrite IH, set_row_id.
Qed.

Lemma max_rowid_filter (p : Row -> bool) rs : max_rowid (filter p rs) <= max_rowid rs.
Proof.
  induction rs as [|a rs IH]; simpl; [lia|]. destruct (p a); simpl; lia.
Qed.

Lemma effect_high_water item db db' :
  effect item db db' -> sequence_ok db ->
  sequence_ok db' /\ high_water db <= high_water db'.
Proof.
  intros [ | inv n q -> _ _ _ | inv i n q -> _ _ _ _ | inv i -> _ _ ];
    unfold sequence_ok, high_water; intros H.
  - split; [exact H | lia].
  - rewrite next_rowid_insert. cbn [rows sqlite_sequence].
    rewrite max_rowid_snoc. cbn [row_id].
    pose proof (max_rowid_nonneg (rows inv)). unfold next_rowid. lia.
  - unfold next_rowid. cbn [rows sqlite_sequence]. rewrite max_rowid_set_row. lia.
  - unfold next_rowid. cbn [rows sqlite_sequence].
    pose proof (max_rowid_filter (fun r => negb (has_id i r)) (rows inv)). lia.
Qed.

Lemma lifetime_high_water db db' :
  lifetime db db' -> sequence_ok db ->
  sequence_ok db' /\ high_water db <= high_water db'.
Proof.
  induction 1 as [ | f db1 _ IH | f item db1 _ IH ]; intros H.
  - split; [exact H | lia].
  - destruct (IH H) as [Hs Hw].
    destruct (init_db_disk f db1) as [-> | [-> ->]]; [now split|].
    split; [simpl; lia | exact Hw].
  - destruct (IH H) as [Hs Hw].
    destruct (effect_high_water _ _ _ (call_effect f item db1) Hs) as [Hs' Hw'].
    split; [exact Hs' | lia].
Qed.

Lemma lifetime_trans a b c : lifetime a b -> lifetime b c -> lifetime a c.
Proof.
  intros Hab Hbc. induction Hbc as [ | f db1 _ IH | f item db1 _ IH ].
  - exact Hab.
  - now apply life_init_db.
  - now apply life_call.
Qed.

Lemma calls_lifetime f items : forall db, lifetime db (snd (calls f items db)).
Proof.
  induction items as [|item items IH]; intros db; simpl.
  - apply life_start.
  - destruct (call f item db) as [r w] eqn:E.
    specialize (IH (disk w)).
    destruct (calls f items (disk w)) as [rs db'] eqn:E'. simpl in *.
    eapply lifetime_trans; [|exact IH].
    replace (disk w) with (disk (snd (call f item db))) by now rewrite E.
    apply life_call. apply life_start.
Qed.

End Ids.

(** Claim C7. Adding N records one after the other, on a store that has
    its table and raises nothing, returns N ids: each call reports the next
    id, the ids are strictly increasing and pairwise different, each is
    above every id the table holds or has handed out before, and reading
    any of them afterwards returns the record that was added under it.
    Whatever is done to the store later (deleting these records included),
    the id it hands out next is above all of them. *)
Theorem created_ids_increase reqs inv :
  Forall (fun nq => fst nq <> EmptyString) reqs ->
  let ids := fresh_ids (next_rowid inv) (List.length reqs) in
  let run := calls no_faults (map add_request reqs) (Some inv) in
  List.length ids = List.length reqs
  /\ fst run = map added_result (combine reqs ids)
  /\ StronglySorted Z.lt ids
  /\ NoDup ids
  /\ Forall (fun i => sqlite_sequence inv < i /\ ~ In i (map row_id (rows inv))) ids
  /\ (forall p, In p (combine reqs ids) ->
        fst (read no_faults (snd p) (at_rest (snd run))) = Ok (Some (added_row p)))
  /\ (sequence_ok (Some inv) ->
      forall db', lifetime (snd run) db' -> Forall (fun i => i <= high_water db') ids).
Proof.
  intros Hne ids run.
  destruct (calls_add reqs inv Hne) as [inv' [Ecalls Erows]].
  fold ids in Ecalls, Erows. fold run in Ecalls.
  assert (Hlen : List.length ids = List.length reqs) by apply fresh_ids_length.
  assert (Hsorted : StronglySorted Z.lt ids) by apply fresh_ids_sorted.
  assert (Habove : Forall (fun i => sqlite_sequence inv < i
                                    /\ ~ In i (map row_id (rows inv))) ids).
  { eapply Forall_impl; [|apply (fresh_ids_ge (List.length reqs) (next_rowid inv))].
    simpl. intros i Hi. split; [unfold next_rowid in Hi; lia|].
    intros Hin. apply in_map_iff in Hin as [r [<- Hr]].
    apply next_rowid_above in Hr. lia. }
  refine (conj Hlen (conj _ (conj Hsorted (conj _ (conj Habove (conj _ _)))))).
  - now rewrite Ecalls.
  - now apply sorted_lt_NoDup.
  - intros p Hp. rewrite Ecalls. cbn [snd]. rewrite read_ok, Erows, find_app.
    assert (Hid : In (snd p) ids).
    { destruct p as [nq i]. now apply in_combine_r in Hp. }
    rewrite Forall_forall in Habove. destruct (Habove _ Hid) as [_ Hfresh].
    rewrite (find_absent _ _ Hfresh).
    change (snd p) with (row_id (added_row p)). rewrite find_unique; [reflexivity| |].
    + rewrite added_row_ids by exact Hlen. now apply sorted_lt_NoDup.
    + now apply in_map.
  - intros Hseq db' Hlife.
    assert (Hrun : lifetime (Some inv) (snd run)) by apply calls_lifetime.
    destruct (lifetime_high_water _ _ Hrun Hseq) as [Hseq' _].
    destruct (lifetime_high_water _ _ Hlife Hseq') as [_ Hw].
    apply Forall_forall. intros i Hi.
    assert (Hheld : i <= high_water (snd run)).
    { rewrite Ecalls. cbn [snd high_water].
      assert (Hin : In i (map row_id (rows inv'))).
      { rewrite Erows, map_app, added_row_ids by exact Hlen.
        apply in_or_app. now right. }
      apply in_map_iff in Hin as [r [<- Hr]].
      apply next_rowid_above in Hr. lia. }
    lia.
Qed.

Lemma created_ids_increase_witness :
  fst (calls no_faults (map add_request [("Bolt", 10); ("Nut", 4); ("Gear", 0)])
         (Some empty_inventory))
  = [Ok "Added Bolt with ID 1 and quantity 10.";
     Ok "Added Nut with ID 2 and quantity 4.";
     Ok "Added Gear with ID 3 and quantity 0."].
Proof.
  destruct (created_ids_increase [("Bolt", 10); ("Nut", 4); ("Gear", 0)] empty_inventory)
    as [_ [E _]].
  - repeat constructor; discriminate.
  - rewrite E. reflexivity.
Defined.

(* ================================================================= *)
(** ** Round trip *)

Lemma count_id_snoc i rs n q : count_id i (rs ++ [mkRow i n q]) <> 0.
Proof.
  apply count_id_present. rewrite map_app. apply in_or_app. right. now left.
Qed.

Lemma set_row_hit n q i n0 q0 : set_row n q i (mkRow i n0 q0) = mkRow i n q.
Proof. unfold set_row, has_id. simpl. now rewrite Z.eqb_refl. Qed.

Lemma find_snoc_fresh i rs r :
  ~ In i (map row_id rs) -> row_id r = i -> find (has_id i) (rs ++ [r]) = Some r.
Proof.
  intros Hfresh Hr. rewrite find_app, (find_absent _ _ Hfresh). simpl.
  unfold has_id. now rewrite Hr, Z.eqb_refl.
Qed.

(** Claim C8. On every store that has its table and raises nothing, and so
    on the store [init_db] creates (where the id is 1): adding "Widget"
    with quantity 5 and reading the id the store gave it returns that id
    with "Widget" and 5; updating that id to "Widget" and 9 and reading it
    returns "Widget" and 9; deleting that id and reading it finds
    nothing. *)
Theorem widget_round_trip inv :
  let i := next_rowid inv in
  let created :=
    call no_faults (mkItem "add" None (Some "Widget") (Some 5)) (Some inv) in
  let changed :=
    call no_faults (mkItem "update" (Some i) (Some "Widget") (Some 9))
      (disk (snd created)) in
  let removed :=
    call no_faults (mkItem "delete" (Some i) None None) (disk (snd changed)) in
  fst created = Ok ("Added Widget with ID " ++ str i ++ " and quantity 5.")
  /\ fst (read no_faults i (at_rest (disk (snd created))))
     = Ok (Some (mkRow i "Widget" 5))
  /\ fst changed = Ok ("Updated item ID " ++ str i ++ " to Widget with quantity 9.")
  /\ fst (read no_faults i (at_rest (disk (snd changed))))
     = Ok (Some (mkRow i "Widget" 9))
  /\ fst removed = Ok ("Deleted item ID " ++ str i ++ ".")
  /\ fst (read no_faults i (at_rest (disk (snd removed)))) = Ok None
  /\ fresh_store = Some empty_inventory
  /\ next_rowid empty_inventory = 1.
Proof.
  intros i created changed removed.
  assert (Hw : "Widget" <> EmptyString) by discriminate.
  pose proof (next_rowid_fresh inv) as Hfresh. fold i in Hfresh.
  pose proof (call_add no_faults (mkItem "add" None (Some "Widget") (Some 5)) inv
                "Widget" 5 eq_refl eq_refl eq_refl eq_refl Hw eq_refl) as E1.
  cbn [commit_fault no_faults] in E1. fold i in E1. fold created in E1.
  assert (D1 : disk (snd created)
               = Some {| rows := rows inv ++ [mkRow i "Widget" 5];
                         sqlite_sequence := i |}) by now rewrite E1.
  pose proof (call_update no_faults (mkItem "update" (Some i) (Some "Widget") (Some 9))
                {| rows := rows inv ++ [mkRow i "Widget" 5]; sqlite_sequence := i |}
                i "Widget" 9 eq_refl eq_refl eq_refl eq_refl eq_refl Hw eq_refl) as E2.
  cbn [commit_fault no_faults rows sqlite_sequence] in E2.
  rewrite (proj2 (Z.eqb_neq _ _) (count_id_snoc i (rows inv) "Widget" 5)) in E2.
  rewrite map_app, (map_set_row_absent _ _ _ _ Hfresh) in E2.
  cbn [map] in E2. rewrite set_row_hit in E2.
  rewrite <- D1 in E2. fold changed in E2.
  assert (D2 : disk (snd changed)
               = Some {| rows := rows inv ++ [mkRow i "Widget" 9];
                         sqlite_sequence := i |}) by now rewrite E2.
  pose proof (call_delete no_faults (mkItem "delete" (Some i) None None)
                {| rows := rows inv ++ [mkRow i "Widget" 9]; sqlite_sequence := i |}
                i eq_refl eq_refl eq_refl eq_refl) as E3.
  cbn [commit_fault no_faults rows sqlite_sequence] in E3.
  rewrite (proj2 (Z.eqb_neq _ _) (count_id_snoc i (rows inv) "Widget" 9)) in E3.
  rewrite filter_app, (filter_absent _ _ Hfresh) in E3.
  cbn [filter] in E3. unfold has_id at 1 in E3. cbn [row_id] in E3.
  rewrite Z.eqb_refl in E3. cbn [negb] in E3. rewrite app_nil_r in E3.
  rewrite <- D2 in E3. fold removed in E3.
  assert (D3 : disk (snd removed) = Some {| rows := rows inv; sqlite_sequence := i |})
    by now rewrite E3.
  refine (conj _ (conj _ (conj _ (conj _ (conj _ (conj _ (conj _ _))))))).
  - rewrite E1. reflexivity.
  - rewrite D1, read_ok. cbn [rows]. now rewrite find_snoc_fresh.
  - rewrite E2. reflexivity.
  - rewrite D2, read_ok. cbn [rows]. now rewrite find_snoc_fresh.
  - rewrite E3. reflexivity.
  - rewrite D3, read_ok. cbn [rows]. now rewrite find_absent.
  - reflexivity.
  - reflexivity.
Qed.

(** The same exchange on the store [init_db] creates, with the strings the
    tool returns. *)
Example round_trip_on_fresh_store :
  let created := call no_faults (mkItem "add" None (Some "Widget") (Some 5)) fresh_store in
  let changed :=
    call no_faults (mkItem "update" (Some 1) (Some "Widget") (Some 9))
      (disk (snd created)) in
  let removed := call no_faults (mkItem "delete" (Some 1) None None) (disk (snd changed)) in
  fst created = Ok "Added Widget with ID 1 and quantity 5."
  /\ fst (read no_faults 1 (at_rest (disk (snd created)))) = Ok (Some (mkRow 1 "Widget" 5))
  /\ fst changed = Ok "Updated item ID 1 to Widget with quantity 9."
  /\ fst (read no_faults 1 (at_rest (disk (snd changed)))) = Ok (Some (mkRow 1 "Widget" 9))
  /\ fst removed = Ok "Deleted item ID 1."
  /\ fst (read no_faults 1 (at_rest (disk (snd removed)))) = Ok None.
Proof. repeat split. Qed.

(* ================================================================= *)
(** ** Normalisation of the operation *)

Lemma lower_char_idempotent c : lower_char (lower_char c) = lower_char c.
Proof. destruct c as [[] [] [] [] [] [] [] []]; reflexivity. Qed.

Lemma lower_idempotent s : lower (lower s) = lower s.
Proof.
  induction s as [|c s IH]; simpl; [reflexivity|].
  now rewrite lower_char_idempotent, IH.
Qed.

(** Property X1. The operation is matched without regard to letter case: a request
    behaves as the same request with its operation in lower case, and two
    requests whose operations differ only in case and whose other fields
    agree get the same result and leave the same state. *)
Theorem operation_case_insensitive f item db :
  call f item db = call f (normalized item) db
  /\ forall other,
       lower (operation other) = lower (operation item) ->
       id other = id item -> name other = name item ->
       quantity other = quantity item ->
       call f other db = call f item db.
Proof.
  split.
  - unfold call, manageInventory, normalized. cbn [operation].
    rewrite lower_idempotent. reflexivity.
  - intros other Hop Hi Hn Hq. destruct other as [op' i' n' q'], item as [op i n q].
    cbn [operation id name quantity] in *. subst i' n' q'.
    unfold call, manageInventory. cbn [operation]. rewrite Hop. reflexivity.
Qed.

Lemma operation_case_insensitive_witness :
  call no_faults (mkItem "DeLeTe" (Some 1) None None)
    (Some {| rows := [mkRow 1 "Bolt" 10]; sqlite_sequence := 1 |})
  = call no_faults (mkItem "delete" (Some 1) None None)
      (Some {| rows := [mkRow 1 "Bolt" 10]; sqlite_sequence := 1 |}).
Proof.
  apply (proj2 (operation_case_insensitive no_faults (mkItem "delete" (Some 1) None None)
                  (Some {| rows := [mkRow 1 "Bolt" 10]; sqlite_sequence := 1 |})));
    reflexivity.
Defined.

(* ================================================================= *)
(** ** What a result string says about the file *)

Lemma keyword_cases item :
  (exists k, lower (operation item) = keyword k)
  \/ (lower (operation item) <> "add" /\ lower (operation item) <> "update"
      /\ lower (operation item) <> "delete").
Proof.
  destruct (String.eqb_spec (lower (operation item)) "add") as [Ea|Ea];
    [left; now exists KAdd|].
  destruct (String.eqb_spec (lower (operation item)) "update") as [Eu|Eu];
    [left; now exists KUpdate|].
  destruct (String.eqb_spec (lower (operation item)) "delete") as [Ed|Ed];
    [left; now exists KDelete|].
  now right.
Qed.

Lemma omitted_cases k item : omitted_fields k item = [] \/ omitted_fields k item <> [].
Proof. destruct (omitted_fields k item); [now left | right; discriminate]. Qed.

Lemma missing_field_is_error k : startswith "Error: " (missing_field k) = true.
Proof. destruct k; reflexivity. Qed.

(** Property X2. An operation that is not "add", "update" or "delete" after
    lower-casing (the empty string included) is answered with the
    invalid-operation message whatever the other fields are; no statement
    and no commit reach the store and the file is left as it was, also
    when opening the connection raises. *)
Theorem unknown_operation_rejected f item db :
  lower (operation item) <> "add" ->
  lower (operation item) <> "update" ->
  lower (operation item) <> "delete" ->
  (connect_fault f = None ->
   call f item db = (Ok invalid_operation, after_call db [EvConnect; EvClose]))
  /\ untouched (snd (call f item db))
  /\ disk (snd (call f item db)) = db.
Proof.
  intros Ha Hu Hd. split; [intros Hc; now apply call_invalid|].
  destruct (connect_fault f) as [e|] eqn:Hc.
  - rewrite (call_connect_fault _ _ _ _ Hc). split; [|reflexivity].
    intros ev [<- | []]. right. right. now exists e.
  - rewrite (call_invalid _ _ _ Hc Ha Hu Hd). split; [|reflexivity].
    intros ev [<- | [<- | []]]; auto.
Qed.

Lemma unknown_operation_rejected_witness :
  call no_faults (mkItem EmptyString (Some 1) (Some "Bolt") (Some 10)) (Some empty_inventory)
  = (Ok invalid_operation, after_call (Some empty_inventory) [EvConnect; EvClose]).
Proof.
  apply (unknown_operation_rejected no_faults
           (mkItem EmptyString (Some 1) (Some "Bolt") (Some 10)) (Some empty_inventory));
    try discriminate; reflexivity.
Defined.

(** What a well-formed request does once the connection is open. *)
Lemma call_well_formed f item db k :
  connect_fault f = None -> well_formed k item ->
  (startswith "Error: " (match fst (call f item db) with Ok s => s | Raise e => e end) = true
   /\ disk (snd (call f item db)) = db
   /\ exists s, fst (call f item db) = Ok s)
  \/ (exists s inv,
        fst (call f item db) = Ok s /\ startswith "Error: " s = false
        /\ db = Some inv
        /\ journal (snd (call f item db))
           = [EvConnect; EvExecute (statement k item); EvCommit; EvClose]).
Proof.
  intros Hc Hwf.
  destruct (execute_fault f) as [e|] eqn:He.
  { left. rewrite (call_execute_fault _ _ _ k _ Hc He Hwf). simpl. eauto. }
  destruct db as [inv|].
  2:{ left. rewrite (call_no_table _ _ k Hc He Hwf). simpl. eauto. }
  destruct k.
  - destruct (well_formed_add_fields _ Hwf) as [n [q [Hn [Hne Hq]]]].
    destruct Hwf as [Hk _]. simpl in Hk.
    rewrite (call_add f item inv n q Hc He Hk Hn Hne Hq).
    destruct (commit_fault f) as [e|]; [left; simpl; eauto|].
    right. eexists. exists inv. cbn [fst snd statement]. rewrite Hn, Hq.
    repeat split; reflexivity.
  - destruct (well_formed_update_fields _ Hwf) as [i [n [q [Hi [Hn [Hne Hq]]]]]].
    destruct Hwf as [Hk _]. simpl in Hk.
    rewrite (call_update f item inv i n q Hc He Hk Hi Hn Hne Hq).
    destruct (count_id i (rows inv) =? 0)%Z; [left; simpl; eauto|].
    destruct (commit_fault f) as [e|]; [left; simpl; eauto|].
    right. eexists. exists inv. cbn [fst snd statement]. rewrite Hi, Hn, Hq.
    repeat split; reflexivity.
  - destruct (well_formed_delete_fields _ Hwf) as [i Hi].
    destruct Hwf as [Hk _]. simpl in Hk.
    rewrite (call_delete f item inv i Hc He Hk Hi).
    destruct (count_id i (rows inv) =? 0)%Z; [left; simpl; eauto|].
    destruct (commit_fault f) as [e|]; [left; simpl; eauto|].
    right. eexists. exists inv. cbn [fst snd statement]. rewrite Hi.
    repeat split; reflexivity.
Qed.

(** Property X3. A result that starts with "Error: " means the file was not
    changed; any other result means that exactly one statement, the one the
    request asks for, was executed and committed on an existing table. A
    call that raises leaves the file unchanged as well. *)
Theorem error_result_means_no_change f item db :
  match fst (call f item db) with
  | Ok s =>
      if startswith "Error: " s
      then disk (snd (call f item db)) = db
      else exists k inv,
             well_formed k item /\ db = Some inv
             /\ journal (snd (call f item db))
                = [EvConnect; EvExecute (statement k item); EvCommit; EvClose]
  | Raise _ => disk (snd (call f item db)) = db
  end.
Proof.
  destruct (connect_fault f) as [e|] eqn:Hc.
  { now rewrite (call_connect_fault _ _ _ _ Hc). }
  destruct (keyword_cases item) as [[k Hk] | [Ha [Hu Hd]]].
  2:{ now rewrite (call_invalid _ _ _ Hc Ha Hu Hd). }
  destruct (omitted_cases k item) as [Ho | Ho].
  2:{ rewrite (call_missing _ _ _ _ Hc Hk Ho). cbn [fst snd].
      now rewrite missing_field_is_error. }
  assert (Hwf : well_formed k item) by now split.
  destruct (call_well_formed f item db k Hc Hwf)
    as [[Herr [Hdisk [s Hs]]] | [s [inv [Hs [Hok [Hdb Hj]]]]]].
  - rewrite Hs in *. now rewrite Herr.
  - rewrite Hs, Hok. now exists k, inv.
Qed.

(* ================================================================= *)
(** ** Updating and deleting a record the table holds *)

Lemma find_set_row n q i rs :
  In i (map row_id rs) ->
  find (has_id i) (map (set_row n q i) rs) = Some (mkRow i n q).
Proof.
  induction rs as [|a rs IH]; simpl; [contradiction|]. intros H.
  destruct (has_id i a) eqn:E.
  - assert (Ea : set_row n q i a = mkRow i n q).
    { unfold set_row. rewrite E. unfold has_id in E. apply Z.eqb_eq in E.
      now rewrite E. }
    rewrite Ea. unfold has_id. cbn [row_id]. now rewrite Z.eqb_refl.
  - rewrite (set_row_other _ _ _ _ E), E. apply IH. destruct H as [H|H]; [|exact H].
    unfold has_id in E. apply Z.eqb_neq in E. contradiction.
Qed.

Lemma set_row_target n q i rs r :
  In r (map (set_row n q i) rs) -> row_id r = i -> r = mkRow i n q.
Proof.
  intros Hin Hr. apply in_map_iff in Hin as [a [<- Ha]].
  rewrite set_row_id in Hr. unfold set_row, has_id. apply Z.eqb_eq in Hr as Hb.
  rewrite Hb. now rewrite Hr.
Qed.

Lemma map_set_row_ids n q i rs : map row_id (map (set_row n q i) rs) = map row_id rs.
Proof. rewrite map_map. apply map_ext. intros a. apply set_row_id. Qed.

Lemma count_id_set_row n q i rs :
  count_id i (map (set_row n q i) rs) = count_id i rs.
Proof.
  unfold count_id. f_equal. induction rs as [|a rs IH]; simpl; [reflexivity|].
  unfold has_id at 1. rewrite set_row_id. fold (has_id i a).
  destruct (has_id i a); simpl; now rewrite IH.
Qed.

Lemma set_row_twice n q i r : set_row n q i (set_row n q i r) = set_row n q i r.
Proof.
  destruct (has_id i r) eqn:E.
  - assert (Er : set_row n q i r = mkRow (row_id r) n q)
      by (unfold set_row; now rewrite E).
    rewrite Er. unfold set_row, has_id in *. cbn [row_id]. now rewrite E.
  - now rewrite !(set_row_other _ _ _ _ E).
Qed.

Lemma filter_removes_id i rs :
  ~ In i (map row_id (filter (fun r => negb (has_id i r)) rs)).
Proof.
  intros H. apply in_map_iff in H as [r [Hr Hin]].
  apply filter_In in Hin as [_ Hneg]. unfold has_id in Hneg.
  rewrite Hr, Z.eqb_refl in Hneg. discriminate.
Qed.

Lemma one_row_with_id i rs :
  StronglySorted by_id rs -> In i (map row_id rs) ->
  List.length (filter (has_id i) rs) = 1%nat.
Proof.
  intros Hs Hin. pose proof (sorted_at_most_one i rs Hs) as Hle.
  apply count_id_present in Hin. unfold count_id in Hin. lia.
Qed.

(** Property X4. A well-formed [update] of an id the table holds, on a store that
    raises nothing, returns "Updated item ID {id} to {name} with quantity
    {quantity}." and commits; afterwards every record with that id carries
    the new name and quantity and reading the id returns them, while the
    ids of the table, their order and the id counter are what they were. *)
Theorem update_overwrites_record item inv i n q :
  lower (operation item) = "update" ->
  id item = Some i -> name item = Some n -> n <> EmptyString ->
  quantity item = Some q ->
  In i (map row_id (rows inv)) ->
  exists inv',
    call no_faults item (Some inv)
    = (Ok ("Updated item ID " ++ str i ++ " to " ++ n ++ " with quantity "
             ++ str q ++ "."),
       after_call (Some inv')
         [EvConnect; EvExecute (Update (Some n) (Some q) (Some i)); EvCommit; EvClose])
    /\ map row_id (rows inv') = map row_id (rows inv)
    /\ sqlite_sequence inv' = sqlite_sequence inv
    /\ (forall r, In r (rows inv') -> row_id r = i -> r = mkRow i n q)
    /\ fst (read no_faults i (at_rest (Some inv'))) = Ok (Some (mkRow i n q)).
Proof.
  intros Hk Hi Hn Hne Hq Hin.
  pose proof (call_update no_faults item inv i n q eq_refl eq_refl Hk Hi Hn Hne Hq) as E.
  rewrite (proj2 (Z.eqb_neq _ _) (count_id_present _ _ Hin)) in E.
  cbn [commit_fault no_faults] in E.
  exists {| rows := map (set_row n q i) (rows inv);
            sqlite_sequence := sqlite_sequence inv |}.
  refine (conj E (conj _ (conj eq_refl (conj _ _)))); cbn [rows].
  - apply map_set_row_ids.
  - intros r. apply set_row_target.
  - rewrite read_ok. cbn [rows]. now rewrite find_set_row.
Qed.

Lemma update_overwrites_record_witness :
  exists inv',
    call no_faults (mkItem "update" (Some 2) (Some "Nut") (Some 7))
      (Some {| rows := [mkRow 1 "Bolt" 10; mkRow 2 "Nut" 4]; sqlite_sequence := 2 |})
    = (Ok ("Updated item ID " ++ str 2 ++ " to " ++ "Nut" ++ " with quantity "
             ++ str 7 ++ "."),
       after_call (Some inv')
         [EvConnect; EvExecute (Update (Some "Nut") (Some 7) (Some 2)); EvCommit; EvClose])
    /\ map row_id (rows inv') = [1; 2]
    /\ sqlite_sequence inv' = 2
    /\ (forall r, In r (rows inv') -> row_id r = 2 -> r = mkRow 2 "Nut" 7)
    /\ fst (read no_faults 2 (at_rest (Some inv'))) = Ok (Some (mkRow 2 "Nut" 7)).
Proof.
  apply (update_overwrites_record (mkItem "update" (Some 2) (Some "Nut") (Some 7))
           {| rows := [mkRow 1 "Bolt" 10; mkRow 2 "Nut" 4]; sqlite_sequence := 2 |}
           2 "Nut" 7); try reflexivity; [discriminate | simpl; tauto].
Defined.

(** Property X5. A [delete] of an id the table holds, on a store that raises
    nothing, returns "Deleted item ID {id}." and commits; afterwards no
    record has that id and reading it finds nothing. On a table in rowid
    order exactly one record is gone, and the id counter is untouched, so
    the next id the store hands out is the one it would have handed out
    before: the deleted id is not given out again. *)
Theorem delete_removes_record item inv i :
  lower (operation item) = "delete" ->
  id item = Some i ->
  In i (map row_id (rows inv)) ->
  exists inv',
    call no_faults item (Some inv)
    = (Ok ("Deleted item ID " ++ str i ++ "."),
       after_call (Some inv') [EvConnect; EvExecute (Delete (Some i)); EvCommit; EvClose])
    /\ ~ In i (map row_id (rows inv'))
    /\ fst (read no_faults i (at_rest (Some inv'))) = Ok None
    /\ sqlite_sequence inv' = sqlite_sequence inv
    /\ (table_ok (Some inv) -> S (List.length (rows inv')) = List.length (rows inv))
    /\ (sequence_ok (Some inv) -> next_rowid inv' = next_rowid inv).
Proof.
  intros Hk Hi Hin.
  pose proof (call_delete no_faults item inv i eq_refl eq_refl Hk Hi) as E.
  rewrite (proj2 (Z.eqb_neq _ _) (count_id_present _ _ Hin)) in E.
  cbn [commit_fault no_faults] in E.
  exists {| rows := filter (fun r => negb (has_id i r)) (rows inv);
            sqlite_sequence := sqlite_sequence inv |}.
  refine (conj E (conj _ (conj _ (conj eq_refl (conj _ _))))); cbn [rows sqlite_sequence].
  - apply filter_removes_id.
  - rewrite read_ok. cbn [rows]. f_equal. apply find_absent, filter_removes_id.
  - intros Hok. pose proof (filter_length (has_id i) (rows inv)) as Hlen.
    rewrite (one_row_with_id i (rows inv) Hok Hin) in Hlen. lia.
  - intros Hseq. unfold sequence_ok in Hseq. unfold next_rowid. cbn [rows sqlite_sequence].
    pose proof (max_rowid_filter (fun r => negb (has_id i r)) (rows inv)). lia.
Qed.

Lemma delete_removes_record_witness :
  exists inv',
    call no_faults (mkItem "delete" (Some 2) None None)
      (Some {| rows := [mkRow 1 "Bolt" 10; mkRow 2 "Nut" 4]; sqlite_sequence := 2 |})
    = (Ok ("Deleted item ID " ++ str 2 ++ "."),
       after_call (Some inv') [EvConnect; EvExecute (Delete (Some 2)); EvCommit; EvClose])
    /\ ~ In 2 (map row_id (rows inv'))
    /\ fst (read no_faults 2 (at_rest (Some inv'))) = Ok None
    /\ sqlite_sequence inv' = 2
    /\ (table_ok (Some {| rows := [mkRow 1 "Bolt" 10; mkRow 2 "Nut" 4];
                          sqlite_sequence := 2 |}) ->
        S (List.length (rows inv')) = 2%nat)
    /\ (sequence_ok (Some {| rows := [mkRow 1 "Bolt" 10; mkRow 2 "Nut" 4];
                             sqlite_sequence := 2 |}) ->
        next_rowid inv' = 3).
Proof.
  apply (delete_removes_record (mkItem "delete" (Some 2) None None)
           {| rows := [mkRow 1 "Bolt" 10; mkRow 2 "Nut" 4]; sqlite_sequence := 2 |} 2);
    try reflexivity. simpl. tauto.
Defined.

(** Property X6. An [add] request ignores its [id] field: whatever id it carries,
    the result and the state the call leaves are the same. *)
Theorem add_ignores_id f item db i :
  lower (operation item) = "add" ->
  call f (mkItem (operation item) i (name item) (quantity item)) db = call f item db.
Proof.
  intros Hk. unfold call, manageInventory. cbn [operation]. rewrite Hk.
  unfold manageInventory_try. reflexivity.
Qed.

Lemma add_ignores_id_witness :
  call no_faults (mkItem "add" (Some 99) (Some "Bolt") (Some 10)) (Some empty_inventory)
  = call no_faults (mkItem "add" None (Some "Bolt") (Some 10)) (Some empty_inventory).
Proof.
  apply (add_ignores_id no_faults (mkItem "add" None (Some "Bolt") (Some 10))
           (Some empty_inventory) (Some 99)).
  reflexivity.
Defined.

(** Property X7. A [delete] request ignores its [name] and [quantity] fields:
    whatever they are, present or not, the result and the state the call
    leaves are the same. *)
Theorem delete_ignores_name_and_quantity f item db n q :
  lower (operation item) = "delete" ->
  call f (mkItem (operation item) (id item) n q) db = call f item db.
Proof.
  intros Hk. unfold call, manageInventory. cbn [operation]. rewrite Hk.
  unfold manageInventory_try. reflexivity.
Qed.

Lemma delete_ignores_name_and_quantity_witness :
  call no_faults (mkItem "delete" (Some 1) (Some EmptyString) (Some (-3)))
    (Some {| rows := [mkRow 1 "Bolt" 10]; sqlite_sequence := 1 |})
  = call no_faults (mkItem "delete" (Some 1) None None)
      (Some {| rows := [mkRow 1 "Bolt" 10]; sqlite_sequence := 1 |}).
Proof.
  apply (delete_ignores_name_and_quantity no_faults (mkItem "delete" (Some 1) None None)
           (Some {| rows := [mkRow 1 "Bolt" 10]; sqlite_sequence := 1 |})
           (Some EmptyString) (Some (-3))).
  reflexivity.
Defined.

(** Property X8. Deleting the same id twice: whatever the first call did, the
    second one, on a store that raises nothing, returns
    "Error: Item with ID {id} not found.", commits nothing and leaves the
    file as the first call left it. *)
Theorem second_delete_not_found item inv i :
  lower (operation item) = "delete" ->
  id item = Some i ->
  call no_faults item (disk (snd (call no_faults item (Some inv))))
  = (Ok ("Error: Item with ID " ++ str i ++ " not found."),
     after_call (disk (snd (call no_faults item (Some inv))))
       [EvConnect; EvExecute (Delete (Some i)); EvClose]).
Proof.
  intros Hk Hi.
  assert (H1 : exists inv1, disk (snd (call no_faults item (Some inv))) = Some inv1
                            /\ ~ In i (map row_id (rows inv1))).
  { rewrite (call_delete no_faults item inv i eq_refl eq_refl Hk Hi).
    cbn [commit_fault no_faults].
    destruct (count_id i (rows inv) =? 0)%Z eqn:E.
    - exists inv. split; [reflexivity|]. intros Hin.
      apply count_id_present in Hin. apply Z.eqb_eq in E. contradiction.
    - eexists. split; [reflexivity|]. cbn [rows]. apply filter_removes_id. }
  destruct H1 as [inv1 [-> Habs]].
  rewrite (call_delete no_faults item inv1 i eq_refl eq_refl Hk Hi).
  now rewrite (count_id_absent _ _ Habs).
Qed.

Lemma second_delete_not_found_witness :
  fst (call no_faults (mkItem "delete" (Some 1) None None)
         (disk (snd (call no_faults (mkItem "delete" (Some 1) None None)
                       (Some {| rows := [mkRow 1 "Bolt" 10]; sqlite_sequence := 1 |})))))
  = Ok "Error: Item with ID 1 not found.".
Proof.
  rewrite (second_delete_not_found (mkItem "delete" (Some 1) None None)
             {| rows := [mkRow 1 "Bolt" 10]; sqlite_sequence := 1 |} 1);
    reflexivity.
Defined.

(** Property X9. Repeating an [update]: on a store that raises nothing, sending the
    same well-formed [update] again returns the same result and leaves the
    file exactly as the first call left it (a record that already has the
    requested values still counts as updated). *)
Theorem update_is_idempotent item inv :
  well_formed KUpdate item ->
  call no_faults item (disk (snd (call no_faults item (Some inv))))
  = call no_faults item (Some inv).
Proof.
  intros Hwf.
  destruct (well_formed_update_fields _ Hwf) as [i [n [q [Hi [Hn [Hne Hq]]]]]].
  destruct Hwf as [Hk _]. simpl in Hk.
  rewrite (call_update no_faults item inv i n q eq_refl eq_refl Hk Hi Hn Hne Hq).
  cbn [commit_fault no_faults].
  destruct (count_id i (rows inv) =? 0)%Z eqn:E; cbn [snd disk after_call].
  - rewrite (call_update no_faults item inv i n q eq_refl eq_refl Hk Hi Hn Hne Hq).
    now rewrite E.
  - rewrite (call_update no_faults item _ i n q eq_refl eq_refl Hk Hi Hn Hne Hq).
    cbn [rows sqlite_sequence commit_fault no_faults].
    rewrite count_id_set_row, E, map_map.
    rewrite (map_ext _ _ (set_row_twice n q i)). reflexivity.
Qed.

Lemma update_is_idempotent_witness :
  call no_faults (mkItem "update" (Some 1) (Some "Bolt") (Some 3))
    (disk (snd (call no_faults (mkItem "update" (Some 1) (Some "Bolt") (Some 3))
                  (Some {| rows := [mkRow 1 "Bolt" 10]; sqlite_sequence := 1 |}))))
  = call no_faults (mkItem "update" (Some 1) (Some "Bolt") (Some 3))
      (Some {| rows := [mkRow 1 "Bolt" 10]; sqlite_sequence := 1 |}).
Proof.
  apply (update_is_idempotent (mkItem "update" (Some 1) (Some "Bolt") (Some 3))
           {| rows := [mkRow 1 "Bolt" 10]; sqlite_sequence := 1 |}).
  split; reflexivity.
Defined.

(* ================================================================= *)
(** ** [init_db] and [fetch_inventory] *)

Ltac run_store :=
  unfold init_db, fetch_inventory, bind, connect, execute, commit, close, print,
    ret, at_rest, log, view;
  simpl.

(** Property X10. [init_db] never touches a table that is already there, whatever
    the environment does; and when the store raises nothing it returns with
    the connection closed and the file has its table: the one it had, or
    an empty one with the id counter at zero if it had none. *)
Theorem init_db_creates_or_keeps :
  (forall f inv, disk (snd (init_db f (at_rest (Some inv)))) = Some inv)
  /\ forall db,
       exists inv,
         init_db no_faults (at_rest db)
         = (Ok tt, mkWorld (Some inv) None false
                     [EvConnect; EvExecute CreateTableIfNotExists; EvCommit; EvClose] [])
         /\ (db = Some inv \/ (db = None /\ inv = empty_inventory)).
Proof.
  split.
  - intros f inv. run_store.
    destruct (connect_fault f); simpl; [reflexivity|].
    destruct (execute_fault f); simpl; [reflexivity|].
    destruct (commit_fault f); reflexivity.
  - intros [inv|].
    + exists inv. split; [reflexivity | now left].
    + exists empty_inventory. split; [reflexivity | now right].
Qed.

(** Property X11. [fetch_inventory] only reads: whatever the environment does, the
    file is what it was. When it returns, it returns every row of the table
    and no other, in the table's order, and has closed the connection; it
    returns whenever the table exists and neither [connect] nor [execute]
    raises. *)
Theorem fetch_inventory_only_reads f db :
  disk (snd (fetch_inventory f (at_rest db))) = db
  /\ (forall got, fst (fetch_inventory f (at_rest db)) = Ok got ->
        got = rows_of db /\ db <> None
        /\ connected (snd (fetch_inventory f (at_rest db))) = false)
  /\ (connect_fault f = None -> execute_fault f = None -> db <> None ->
      fst (fetch_inventory f (at_rest db)) = Ok (rows_of db)).
Proof.
  run_store.
  destruct (connect_fault f) as [e|]; simpl.
  { split; [reflexivity | split; [intros got H | intros H1 H2 H3]]; discriminate. }
  destruct (execute_fault f) as [e|]; simpl.
  { split; [reflexivity | split; [intros got H | intros H1 H2 H3]]; discriminate. }
  destruct db as [inv|]; simpl.
  - split; [reflexivity | split; [intros got H | reflexivity]].
    injection H as <-. repeat split. discriminate.
  - split; [reflexivity | split; [intros got H; discriminate | intros _ _ H]].
    contradiction.
Qed.

Lemma fetch_inventory_only_reads_witness :
  fst (fetch_inventory no_faults
         (at_rest (Some {| rows := [mkRow 1 "Bolt" 10; mkRow 2 "Nut" 4];
                           sqlite_sequence := 2 |})))
  = Ok [mkRow 1 "Bolt" 10; mkRow 2 "Nut" 4].
Proof.
  apply (fetch_inventory_only_reads no_faults
           (Some {| rows := [mkRow 1 "Bolt" 10; mkRow 2 "Nut" 4];
                    sqlite_sequence := 2 |}));
    [reflexivity | reflexivity | discriminate].
Defined.

(** Property X12. [fetch_inventory] has no [finally]: when the query raises on the
    open connection (the table is missing, or the store fails), the
    exception leaves the function and [close] is never called. The message
    is the store's, "no such table: inventory" when the table is missing. *)
Theorem fetch_inventory_error_skips_close f db e :
  connect_fault f = None ->
  fst (fetch_inventory f (at_rest db)) = Raise e ->
  left_open (snd (fetch_inventory f (at_rest db)))
  /\ (execute_fault f = Some e \/ (db = None /\ e = no_such_table)).
Proof.
  intros Hc. unfold left_open. run_store. rewrite Hc. simpl.
  destruct (execute_fault f) as [e'|]; simpl.
  - intros H. injection H as ->. repeat split; auto.
    intros [H | [H | [H | []]]]; discriminate.
  - destruct db as [inv|]; simpl; [discriminate|].
    intros H. injection H as <-. repeat split; auto.
    intros [H | [H | [H | []]]]; discriminate.
Qed.

Lemma fetch_inventory_error_skips_close_witness :
  left_open (snd (fetch_inventory no_faults (at_rest None))).
Proof.
  apply (fetch_inventory_error_skips_close no_faults None no_such_table); reflexivity.
Defined.

(** Property X13. [init_db] has no [finally] either: when [execute] or [commit]
    raises on the open connection, the exception leaves the function and
    [close] is never called. *)
Theorem init_db_error_skips_close f db e :
  connect_fault f = None ->
  fst (init_db f (at_rest db)) = Raise e ->
  left_open (snd (init_db f (at_rest db)))
  /\ (execute_fault f = Some e \/ commit_fault f = Some e).
Proof.
  intros Hc. unfold left_open. run_store. rewrite Hc. simpl.
  destruct (execute_fault f) as [e'|]; simpl.
  - intros H. injection H as ->. repeat split; auto.
    intros [H | [H | [H | []]]]; discriminate.
  - destruct db as [inv|]; simpl;
      (destruct (commit_fault f) as [e'|]; simpl; [|discriminate]);
      intros H; injection H as ->; repeat split; auto;
      intros [H | [H | [H | [H | []]]]]; discriminate.
Qed.

Lemma init_db_error_skips_close_witness :
  left_open (snd (init_db (mkFaults None (Some "disk I/O error") None) (at_rest None))).
Proof.
  apply (init_db_error_skips_close (mkFaults None (Some "disk I/O error") None) None
           "disk I/O error"); reflexivity.
Defined.

(* ================================================================= *)
(** ** What [main] prints *)

Lemma main_lists_from w inv out :
  disk w = Some inv -> shouldListInventory out = true ->
  main no_faults out w
  = (Ok tt,
     {| disk := Some inv; txn := None; connected := false;
        journal := journal w ++ [EvConnect; EvExecute SelectAll; EvClose];
        stdout := stdout w ++ fmt_str out :: listing_heading :: map row_line (rows inv) |}).
Proof.
  intros Hd Hout. destruct w as [d t c j o]. cbn [disk] in Hd. subst d.
  unfold main. rewrite Hout.
  unfold bind, print, fetch_inventory, bind, connect, execute, close, ret. simpl.
  rewrite print_rows_ok. simpl. rewrite <- !app_assoc. reflexivity.
Qed.

(** Property X14. [main] never changes the file, whatever the final output and the
    environment are. When the final output is not listed, it prints that
    output and nothing else and does not open a connection. *)
Theorem main_never_writes f out db :
  disk (snd (main f out (at_rest db))) = db
  /\ (shouldListInventory out = false ->
      main f out (at_rest db) = (Ok tt, mkWorld db None false [] [fmt_str out])).
Proof.
  unfold main. destruct (shouldListInventory out); split; try discriminate;
    try reflexivity.
  unfold bind, print, fetch_inventory, bind, connect, execute, close, ret, at_rest, log,
    view. simpl.
  destruct (connect_fault f); simpl; [reflexivity|].
  destruct (execute_fault f); simpl; [reflexivity|].
  destruct db as [inv|]; simpl; [|reflexivity].
  now rewrite print_rows_ok.
Qed.

Lemma main_never_writes_witness :
  main no_faults (Some "not inventory") (at_rest (Some empty_inventory))
  = (Ok tt, mkWorld (Some empty_inventory) None false [] ["not inventory"]).
Proof.
  apply (main_never_writes no_faults (Some "not inventory") (Some empty_inventory)).
  reflexivity.
Defined.

(** Property X15. When the final output is listed but fetching the rows raises,
    [main] has already printed the final output and the heading; the
    exception is not caught and leaves [main], and no row is printed. *)
Theorem main_listing_failure_propagates f out db e :
  shouldListInventory out = true ->
  fst (fetch_inventory f (at_rest db)) = Raise e ->
  fst (main f out (at_rest db)) = Raise e
  /\ stdout (snd (main f out (at_rest db))) = [fmt_str out; listing_heading].
Proof.
  intros Hout. unfold main. rewrite Hout.
  unfold bind, print, fetch_inventory, bind, connect, execute, close, ret, at_rest, log,
    view. simpl.
  destruct (connect_fault f); simpl; [intros H; now injection H as -> |].
  destruct (execute_fault f); simpl; [intros H; now injection H as -> |].
  destruct db as [inv|]; simpl; [discriminate|].
  intros H. now injection H as <-.
Qed.

Lemma main_listing_failure_propagates_witness :
  fst (main no_faults (Some "is inventory") (at_rest None)) = Raise no_such_table
  /\ stdout (snd (main no_faults (Some "is inventory") (at_rest None)))
     = ["is inventory"; listing_heading].
Proof.
  apply (main_listing_failure_propagates no_faults (Some "is inventory") None
           no_such_table); reflexivity.
Defined.

(* ================================================================= *)
(** ** What holds through the whole life of a store *)

Lemma effect_ids_positive item db db' :
  effect item db db' -> ids_positive db -> ids_positive db'.
Proof.
  unfold ids_positive.
  intros [ | inv n q -> _ _ _ | inv i n q -> _ _ _ _ | inv i -> _ _ ]; simpl; intros H.
  - exact H.
  - apply Forall_app. split; [exact H|]. constructor; [|constructor]. simpl.
    pose proof (max_rowid_nonneg (rows inv)). unfold next_rowid. lia.
  - apply Forall_map. eapply Forall_impl; [|exact H].
    intros a Ha. now rewrite set_row_id.
  - apply Forall_forall. intros r Hr. apply filter_In in Hr as [Hr _].
    rewrite Forall_forall in H. now apply H.
Qed.

Lemma lifetime_ids_positive db db' :
  lifetime db db' -> ids_positive db -> ids_positive db'.
Proof.
  induction 1 as [ | f db1 _ IH | f item db1 _ IH ]; intros H.
  - exact H.
  - specialize (IH H).
    destruct (init_db_disk f db1) as [-> | [_ ->]]; [exact IH | constructor].
  - eapply effect_ids_positive; [apply call_effect | now apply IH].
Qed.

Lemma max_rowid_bounds rs m :
  max_rowid rs <= m -> Forall (fun r => row_id r <= m) rs.
Proof.
  intros H. apply Forall_forall. intros r Hr. apply max_rowid_ge in Hr. lia.
Qed.

(** Property X16. An id is never handed out twice. On a store whose id counter is
    at or above every id of the table (as the engine keeps it), through
    any sequence of [init_db] runs and tool calls, deletes and failures
    included, the counter stays so, the next id never goes down, and it
    stays above the id of every record the table held at the start. *)
Theorem ids_never_handed_out_again inv db' :
  sequence_ok (Some inv) -> lifetime (Some inv) db' ->
  exists inv',
    db' = Some inv'
    /\ sequence_ok (Some inv')
    /\ next_rowid inv <= next_rowid inv'
    /\ forall r, In r (rows inv) -> row_id r < next_rowid inv'.
Proof.
  intros Hseq Hlife.
  destruct (lifetime_high_water _ _ Hlife Hseq) as [Hseq' Hw].
  destruct db' as [inv'|].
  - exists inv'. cbn [high_water] in Hw.
    refine (conj eq_refl (conj Hseq' (conj _ _))); [lia|].
    intros r Hr. apply next_rowid_above in Hr. lia.
  - exfalso. now apply (lifetime_keeps_table _ _ Hlife).
Qed.

Lemma ids_never_handed_out_again_witness :
  exists inv',
    disk (snd (call no_faults (mkItem "delete" (Some 1) None None)
                 (Some {| rows := [mkRow 1 "Bolt" 10]; sqlite_sequence := 1 |})))
    = Some inv'
    /\ sequence_ok (Some inv')
    /\ 2 <= next_rowid inv'
    /\ forall r, In r [mkRow 1 "Bolt" 10] -> row_id r < next_rowid inv'.
Proof.
  apply (ids_never_handed_out_again
           {| rows := [mkRow 1 "Bolt" 10]; sqlite_sequence := 1 |}).
  - simpl. lia.
  - apply life_call. apply life_start.
Defined.

(** Property X17. The table the program builds is well-formed. From a table whose
    ids are positive, in strictly increasing order and at most the id
    counter (the empty table [init_db] creates is one), every state reached
    by [init_db] runs and tool calls, under any failures, has a table with
    positive, pairwise different ids in increasing order, none above the
    counter. *)
Theorem table_stays_well_formed db db' :
  table_ok db -> sequence_ok db -> ids_positive db ->
  lifetime db db' ->
  table_ok db' /\ sequence_ok db' /\ ids_positive db'
  /\ NoDup (map row_id (rows_of db'))
  /\ (forall inv', db' = Some inv' ->
        Forall (fun r => 0 < row_id r <= sqlite_sequence inv') (rows inv')).
Proof.
  intros Hok Hseq Hpos Hlife.
  pose proof (lifetime_table_ok _ _ Hlife Hok) as Hok'.
  destruct (lifetime_high_water _ _ Hlife Hseq) as [Hseq' _].
  pose proof (lifetime_ids_positive _ _ Hlife Hpos) as Hpos'.
  refine (conj Hok' (conj Hseq' (conj Hpos' (conj _ _)))).
  - apply sorted_lt_NoDup, sorted_ids. exact Hok'.
  - intros inv' ->. cbn [sequence_ok] in Hseq'. unfold ids_positive in Hpos'.
    cbn [rows_of] in Hpos'. apply max_rowid_bounds in Hseq'.
    rewrite Forall_forall in *. intros r Hr. split; [now apply Hpos' | now apply Hseq'].
Qed.

Lemma table_stays_well_formed_witness :
  NoDup (map row_id (rows_of (snd (calls no_faults
           [mkItem "add" None (Some "Bolt") (Some 10);
            mkItem "add" None (Some "Nut") (Some 4);
            mkItem "delete" (Some 1) None None] fresh_store)))).
Proof.
  apply (table_stays_well_formed fresh_store).
  - constructor.
  - simpl. lia.
  - constructor.
  - apply calls_lifetime.
Defined.

(** Property X18. The tool never creates the table. On a file without the
    [inventory] table every call leaves the file without it, whatever the
    request and the environment are; and a well-formed request whose
    statement reaches the store gets the store's error back as
    "Error: no such table: inventory". *)
Theorem tool_never_creates_table f item :
  disk (snd (call f item None)) = None
  /\ forall k,
       connect_fault f = None -> execute_fault f = None -> well_formed k item ->
       fst (call f item None) = Ok "Error: no such table: inventory".
Proof.
  split.
  - pose proof (call_effect f item None) as E.
    inversion E; subst; try discriminate; try reflexivity; congruence.
  - intros k Hc He Hwf. now rewrite (call_no_table _ _ k Hc He Hwf).
Qed.

Lemma tool_never_creates_table_witness :
  fst (call no_faults (mkItem "add" None (Some "Bolt") (Some 10)) None)
  = Ok "Error: no such table: inventory".
Proof.
  apply (proj2 (tool_never_creates_table no_faults
                  (mkItem "add" None (Some "Bolt") (Some 10))) KAdd);
    try reflexivity. split; reflexivity.
Defined.

(* ================================================================= *)
(** ** The entry points *)

(** What a tool call does to the file depends on the file only, not on
    what was printed or logged before. *)
Lemma manageInventory_disk f item w :
  disk (snd (manageInventory f item w)) = disk (snd (call f item (disk w))).
Proof.
  destruct w as [d t c j o]. run_call. split_on_tests; reflexivity.
Qed.

Lemma tool_call_then_answer f item out :
  uses_only_the_tool (_ <- manageInventory f item ;; ret out).
Proof.
  intros w. unfold bind, ret.
  destruct (manageInventory f item w) as [[s|e] w1] eqn:E; cbn [snd];
    replace w1 with (snd (manageInventory f item w)) by (now rewrite E);
    rewrite manageInventory_disk; apply life_call, life_start.
Qed.

(** Property X19. [start] initialises the store only when the file is missing. When
    the file exists, [init_db] is not run and [main] starts on the file as
    it is, table or no table. When the file is missing, [init_db] runs
    first: if it raises, [start] raises with it after printing its first
    line and the agent is never run; if it returns, [main] starts on a file
    with an empty table. *)
Theorem start_initialises_missing_file_only f_init f_list run :
  (forall db,
     start f_init f_list run true (at_rest db)
     = main_with_agent f_list run kickoff
         (mkWorld db None false [] [file_found_banner]))
  /\ (forall e,
        fst (init_db f_init (at_rest None)) = Raise e ->
        fst (start f_init f_list run false (at_rest None)) = Raise e
        /\ stdout (snd (start f_init f_list run false (at_rest None)))
           = [no_file_banner])
  /\ (fst (init_db f_init (at_rest None)) = Ok tt ->
      start f_init f_list run false (at_rest None)
      = main_with_agent f_list run kickoff
          (mkWorld (Some empty_inventory) None false
             [EvConnect; EvExecute CreateTableIfNotExists; EvCommit; EvClose]
             [no_file_banner])).
Proof.
  split; [reflexivity|].
  unfold start. cbn [negb]. run_store.
  destruct (connect_fault f_init) as [e1|]; simpl.
  { split; [intros e H; now injection H as -> | discriminate]. }
  destruct (execute_fault f_init) as [e1|]; simpl.
  { split; [intros e H; now injection H as -> | discriminate]. }
  destruct (commit_fault f_init) as [e1|]; simpl.
  { split; [intros e H; now injection H as -> | discriminate]. }
  split; [discriminate | reflexivity].
Qed.

Lemma start_initialises_missing_file_only_witness :
  fst (start (mkFaults (Some "unable to open database file") None None) no_faults
         (fun _ => ret (Some "is inventory")) false (at_rest None))
  = Raise "unable to open database file"
  /\ stdout (snd (start (mkFaults (Some "unable to open database file") None None)
                    no_faults (fun _ => ret (Some "is inventory")) false (at_rest None)))
     = [no_file_banner].
Proof.
  apply (start_initialises_missing_file_only
           (mkFaults (Some "unable to open database file") None None) no_faults
           (fun _ => ret (Some "is inventory"))).
  reflexivity.
Defined.

(** Property X20. From the agent's run to the listing. Let [main] start on a file
    whose table exists and is in rowid order, and let the agent reach the
    store only through the program. When the run ends with a final output
    that is listed and the store raises nothing while fetching, [main]
    returns; after what the run printed it prints the final output, the
    heading and one line for each record of the table the run left, in
    strictly increasing id order, and it leaves that file as it is. *)
Theorem main_lists_what_the_agent_left run msg w0 out w' :
  table_ok (disk w0) -> disk w0 <> None ->
  uses_only_the_tool (run msg) ->
  run msg (snd (print ("RUN Initiated: " ++ msg) w0)) = (Ok out, w') ->
  shouldListInventory out = true ->
  exists inv',
    disk w' = Some inv'
    /\ main_with_agent no_faults run msg w0
       = (Ok tt,
          {| disk := Some inv'; txn := None; connected := false;
             journal := journal w' ++ [EvConnect; EvExecute SelectAll; EvClose];
             stdout := stdout w' ++ fmt_str out :: listing_heading
                                  :: map row_line (rows inv') |})
    /\ StronglySorted Z.lt (map row_id (rows inv')).
Proof.
  intros Hok Hdb Hrun Hw' Hout.
  pose proof (Hrun (snd (print ("RUN Initiated: " ++ msg) w0))) as Hlife.
  rewrite Hw' in Hlife. cbn [snd print disk] in Hlife.
  pose proof (lifetime_table_ok _ _ Hlife Hok) as Hok'.
  pose proof (lifetime_keeps_table _ _ Hlife Hdb) as Hdb'.
  destruct (disk w') as [inv'|] eqn:Hd; [|contradiction].
  exists inv'. refine (conj eq_refl (conj _ _)).
  - unfold main_with_agent, bind, print. unfold print in Hw'. cbn [snd] in Hw'.
    cbv beta iota. rewrite Hw'. now apply main_lists_from.
  - now apply sorted_ids.
Qed.

Lemma main_lists_what_the_agent_left_witness :
  exists inv',
    stdout (snd (main_with_agent no_faults
                   (fun _ => _ <- manageInventory no_faults
                                    (mkItem "add" None (Some "Bolt") (Some 10)) ;;
                             ret (Some "is inventory"))
                   kickoff (at_rest fresh_store)))
    = ["RUN Initiated: del item in the inventory: id 2"; tool_log; "is inventory";
       listing_heading; "ID: 1, Name: Bolt, Quantity: 10"]
    /\ StronglySorted Z.lt (map row_id (rows inv')).
Proof.
  destruct (main_lists_what_the_agent_left
              (fun _ => _ <- manageInventory no_faults
                               (mkItem "add" None (Some "Bolt") (Some 10)) ;;
                        ret (Some "is inventory"))
              kickoff (at_rest fresh_store) (Some "is inventory")
              (mkWorld (Some {| rows := [mkRow 1 "Bolt" 10]; sqlite_sequence := 1 |})
                 None false
                 [EvConnect; EvExecute (Insert (Some "Bolt") (Some 10)); EvCommit; EvClose]
                 ["RUN Initiated: del item in the inventory: id 2"; tool_log]))
    as [inv' [Hd [E S]]].
  - constructor.
  - discriminate.
  - apply tool_call_then_answer.
  - reflexivity.
  - reflexivity.
  - exists inv'. split; [rewrite E; cbn [disk] in Hd; injection Hd as <-; reflexivity
                        | exact S].
Defined.

(* ================================================================= *)
(** ** What the engine refuses *)

(** Property X21. On a table that exists and a store that raises nothing
    else, a well-formed request one of whose integers (a quantity, an id)
    does not fit in 64 bits is answered with
    "Error: Python int too large to convert to SQLite INTEGER": binding
    the parameter raises, nothing is committed and the file is what it
    was. *)
Theorem integer_beyond_64_bits_refused k item inv :
  well_formed k item ->
  forallb in_int64 (bound_ints (statement k item)) = false ->
  run_tool item (Some inv)
  = (Ok "Error: Python int too large to convert to SQLite INTEGER",
     after_call (Some inv)
       [EvConnect; EvExecute (statement k item); EvRaise overflow_error; EvClose]).
Proof.
  intros Hwf Hrange. unfold run_tool.
  apply (call_execute_fault (engine_faults item (Some inv)) item (Some inv) k
           overflow_error eq_refl); [|exact Hwf].
  unfold engine_faults. cbn [execute_fault].
  rewrite (sent_statement_well_formed _ _ Hwf). unfold engine_error.
  now rewrite Hrange.
Qed.

Lemma integer_beyond_64_bits_refused_witness :
  run_tool (mkItem "add" None (Some "Bolt") (Some 9223372036854775808))
    (Some empty_inventory)
  = (Ok "Error: Python int too large to convert to SQLite INTEGER",
     after_call (Some empty_inventory)
       [EvConnect; EvExecute (Insert (Some "Bolt") (Some 9223372036854775808));
        EvRaise overflow_error; EvClose]).
Proof.
  apply (integer_beyond_64_bits_refused KAdd
           (mkItem "add" None (Some "Bolt") (Some 9223372036854775808))
           empty_inventory).
  - split; reflexivity.
  - reflexivity.
Defined.

(** Property X22. When the table has handed out the largest rowid, a
    well-formed [add] whose quantity fits gets "Error: database or disk is
    full" on a store that raises nothing else: no id is left, nothing is
    inserted and the file is what it was. *)
Theorem no_rowid_left_refused item inv :
  well_formed KAdd item ->
  forallb in_int64 (bound_ints (statement KAdd item)) = true ->
  int64_max < next_rowid inv ->
  run_tool item (Some inv)
  = (Ok "Error: database or disk is full",
     after_call (Some inv)
       [EvConnect; EvExecute (statement KAdd item); EvRaise database_full; EvClose]).
Proof.
  intros Hwf Hrange Hfull. unfold run_tool.
  apply (call_execute_fault (engine_faults item (Some inv)) item (Some inv) KAdd
           database_full eq_refl); [|exact Hwf].
  unfold engine_faults. cbn [execute_fault].
  rewrite (sent_statement_well_formed _ _ Hwf). unfold engine_error.
  rewrite Hrange. cbn [negb].
  destruct (well_formed_add_fields _ Hwf) as [n [q [Hn [_ Hq]]]].
  cbn [statement]. rewrite Hn, Hq.
  now rewrite (proj2 (Z.ltb_lt _ _) Hfull).
Qed.

Lemma no_rowid_left_refused_witness :
  run_tool (mkItem "add" None (Some "Bolt") (Some 10))
    (Some {| rows := []; sqlite_sequence := 9223372036854775807 |})
  = (Ok "Error: database or disk is full",
     after_call (Some {| rows := []; sqlite_sequence := 9223372036854775807 |})
       [EvConnect; EvExecute (Insert (Some "Bolt") (Some 10));
        EvRaise database_full; EvClose]).
Proof.
  apply (no_rowid_left_refused (mkItem "add" None (Some "Bolt") (Some 10))
           {| rows := []; sqlite_sequence := 9223372036854775807 |}).
  - split; reflexivity.
  - reflexivity.
  - reflexivity.
Defined.


